(** * Optimization extension of the bit-vector local-search engine

    A shallow embedding of [src/tactic/sls/bvsls_opt_engine.cpp]
    ([bvsls_opt_engine::maximize], [minimize], [save_model], [what_if],
    [find_best_move], [randomize_wrt_hard]) and the properties of the
    design document that can be settled on it.

    The file has three parts: the data model and the collaborators the
    engine consumes, the engine's own functions translated line by line, and
    the theorems. *)

From Stdlib Require Import ZArith QArith Qround Lia List Bool.
From stdpp Require Import base option gmap list fin_maps.

Local Open Scope Z_scope.

(** ** Data model *)

(** A constant of the formula ([func_decl *]): identity is the declaration. *)
Abbreviation func_decl := positive (only parsing).

(** The two sorts a constant handled by the engine may have. *)
Inductive sort : Type :=
| Bool_sort
| BV_sort (sz : nat).

Definition is_bool (s : sort) : bool :=
  match s with Bool_sort => true | BV_sort _ => false end.

Definition is_bv_sort (s : sort) : bool :=
  match s with Bool_sort => false | BV_sort _ => true end.

(** [m_bv_util.get_bv_size(srt)]; only queried on bit-vector sorts. *)
Definition get_bv_size_of_sort (s : sort) : nat :=
  match s with Bool_sort => 0%nat | BV_sort sz => sz end.

(** [move_type] of the base engine. *)
Inductive move_type : Type :=
| MV_FLIP | MV_INC | MV_DEC | MV_INV | MV_UMIN | MV_MUL2 | MV_MUL3 | MV_DIV2.

#[global] Instance move_type_eq_dec : EqDecision move_type.
Proof. solve_decision. Defined.

(** [m_powers(n)] is the table of powers of two. *)
Definition m_powers (n : nat) : Z := 2 ^ Z.of_nat n.

(** [(unsigned)-1], the "no constant selected" sentinel of [maximize]. *)
Definition UINT_MAX : N := 4294967295%N.

(** ** Move constructors

    The constructors [mk_flip] ... [mk_add] live in the base engine, outside
    this translation unit. *)

(** Modelled from the spec: [mk_flip] of the base engine, "Flip each bit j";
    on a Boolean the only bit is the truth value. *)
Definition mk_flip (s : sort) (old_value : Z) (bit : nat) : Z :=
  match s with
  | BV_sort _ => Z.lxor old_value (m_powers bit)
  | Bool_sort => if old_value =? 0 then 1 else 0
  end.

(** Modelled from the spec: [mk_inc] of the base engine, "+1 mod 2^w". *)
Definition mk_inc (bv_sz : nat) (old_value : Z) : Z :=
  (old_value + 1) mod m_powers bv_sz.

(** Modelled from the spec: [mk_dec] of the base engine, "-1 mod 2^w". *)
Definition mk_dec (bv_sz : nat) (old_value : Z) : Z :=
  (old_value - 1) mod m_powers bv_sz.

(** Modelled from the spec: [mk_inv] of the base engine, "Invert (bitwise
    complement)" on [bv_sz] bits. *)
Definition mk_inv (bv_sz : nat) (old_value : Z) : Z :=
  Z.lnot old_value mod m_powers bv_sz.

(** Modelled from the spec: [mk_mul2] of the base engine, "left shift 1,
    mod 2^w". *)
Definition mk_mul2 (bv_sz : nat) (old_value : Z) : Z :=
  Z.shiftl old_value 1 mod m_powers bv_sz.

(** Modelled from the spec: [mk_div2] of the base engine, "logical right
    shift 1". *)
Definition mk_div2 (bv_sz : nat) (old_value : Z) : Z :=
  Z.shiftr old_value 1.

(** Modelled from the spec: [mk_add] of the base engine, addition mod 2^w
    (used for "value + (value left-shifted 1)"). *)
Definition mk_add (bv_sz : nat) (a b : Z) : Z :=
  (a + b) mod m_powers bv_sz.

(** ** Objective expressions

    Modelled from the spec: the formula representation is a collaborator
    ("query bit-width/booleanness, construct negation and numeral-literal
    expressions"). A small language of fixed-width terms stands for it; the
    width of a constant comes from its declaration. *)
Inductive expr : Type :=
| EConst (fd : func_decl)
| ENum (v : Z) (sz : nat)
| EBvNeg (e : expr)
| EBvNot (e : expr)
| EBvAdd (e1 e2 : expr)
| EBvMul (e1 e2 : expr)
| EBvAnd (e1 e2 : expr)
| EBvOr (e1 e2 : expr).

(** [m_bv_util.mk_bv_neg]. *)
Definition mk_bv_neg (e : expr) : expr := EBvNeg e.

(** [m_bv_util.mk_numeral(v, sz)]: the numeral of [sz] bits, reduced. *)
Definition mk_numeral (v : Z) (sz : nat) : expr := ENum (v mod m_powers sz) sz.

(** The constants of an expression, in order of first occurrence. *)
Fixpoint expr_constants (e : expr) : list func_decl :=
  match e with
  | EConst fd => [fd]
  | ENum _ _ => []
  | EBvNeg e | EBvNot e => expr_constants e
  | EBvAdd e1 e2 | EBvMul e1 e2 | EBvAnd e1 e2 | EBvOr e1 e2 =>
      expr_constants e1 ++ expr_constants e2
  end.

(** An assignment: the value of each constant a tracker follows, and also a
    model ([model_ref]): the interpretation of each constant it knows. *)
Abbreviation assignment := (gmap positive Z) (only parsing).

(** [tracker.get_value(fd)]. The source dereferences the entry of [fd]
    without a check; outside its contract (an untracked constant) the model
    answers 0. *)
Definition get_value (vals : assignment) (fd : func_decl) : Z :=
  default 0 (vals !! fd).

(** [tracker.set_value(fd, v)], the assignment half of [evaluator.update]:
    the value of a tracked constant is replaced; an untracked constant is out
    of contract and left alone. *)
Definition set_value (fd : func_decl) (v : Z) (vals : assignment) : assignment :=
  match vals !! fd with
  | Some _ => <[fd := v]> vals
  | None => vals
  end.

Section Expressions.

(** The declaration table: [fd->get_range()]. *)
Variable get_range : func_decl -> sort.

(** [m_bv_util.get_bv_size(e)]. *)
Fixpoint get_bv_size (e : expr) : nat :=
  match e with
  | EConst fd => match get_range fd with Bool_sort => 1%nat | BV_sort sz => sz end
  | ENum _ sz => sz
  | EBvNeg e | EBvNot e => get_bv_size e
  | EBvAdd e1 _ | EBvMul e1 _ | EBvAnd e1 _ | EBvOr e1 _ => get_bv_size e1
  end.

(** The exact value of an expression under an assignment, an unsigned
    number below [2 ^ get_bv_size e]. *)
Fixpoint eval (vals : assignment) (e : expr) : Z :=
  match e with
  | EConst fd => get_value vals fd mod m_powers (get_bv_size e)
  | ENum v sz => v mod m_powers sz
  | EBvNeg e1 => (- eval vals e1) mod m_powers (get_bv_size e)
  | EBvNot e1 => Z.lnot (eval vals e1) mod m_powers (get_bv_size e)
  | EBvAdd e1 e2 => (eval vals e1 + eval vals e2) mod m_powers (get_bv_size e)
  | EBvMul e1 e2 => (eval vals e1 * eval vals e2) mod m_powers (get_bv_size e)
  | EBvAnd e1 e2 => Z.land (eval vals e1) (eval vals e2) mod m_powers (get_bv_size e)
  | EBvOr e1 e2 => Z.lor (eval vals e1) (eval vals e2) mod m_powers (get_bv_size e)
  end.

End Expressions.

(** ** Trackers *)

(** A constraint tracker: the expressions it follows, its ordered set of
    constants ([get_constants()]) and the current value of each. *)
Record sls_tracker : Type := mk_tracker {
  top_exprs : list expr;
  constants : list func_decl;
  values : gmap positive Z
}.

Definition tracker_with_values (t : sls_tracker) (vals : assignment) : sls_tracker :=
  {| top_exprs := top_exprs t; constants := constants t; values := vals |}.

(** Compile-time settings of the engine (the macros [_USE_ADDSUB_],
    [_USE_UNARY_MINUS_], [_USE_MUL2DIV2_], [_USE_MUL3_], [_EARLY_PRUNE_] and
    [_TIMELIMIT_]); their definitions are in a header outside this
    translation unit, so they are taken as parameters. *)
Record settings : Type := mk_settings {
  USE_ADDSUB : bool;
  USE_UNARY_MINUS : bool;
  USE_MUL2DIV2 : bool;
  USE_MUL3 : bool;
  EARLY_PRUNE : bool;
  TIMELIMIT : Q
}.

(** What the engine consumes from its collaborators. Each field is a
    function of what the collaborator can see, so that a run of the engine
    is determined by it. *)
Record collaborators : Type := mk_collaborators {
  (** the declaration table *)
  get_range : func_decl -> sort;
  (** the compile-time settings *)
  cfg : settings;
  (** [m_hard_tracker.is_sat()]: the exact verdict on the assertions *)
  is_sat : gmap positive Z -> bool;
  (** [sls_engine::top_score()]: the satisfaction ratio of the assertions *)
  hard_score : gmap positive Z -> Q;
  (** the verdict of the cheaper partial check of [update_prune], asked for
      a move of a constant to a value from a given assignment *)
  update_prune : gmap positive Z -> func_decl -> Z -> bool;
  (** the value a tracker gives a constant when it is initialized *)
  initial_value : func_decl -> Z;
  (** the stream of raw random numbers *)
  random_source : nat -> Z;
  (** the readings of the stopwatch, in seconds, in the order they are taken *)
  stopwatch : nat -> Q;
  (** [sls_engine::check_restart]: the restart-eligibility check *)
  check_restart : Z -> bool;
  (** the cancellation flag as [checkpoint()] sees it, by number of moves
      made so far *)
  cancel_requested : nat -> bool
}.

(** The state of a [bvsls_opt_engine]. [m_hard_tracker] is a reference to
    the base engine's [m_tracker]: one object, of which only the values are
    kept since its assertions are seen through [is_sat] and [hard_score]. *)
Record engine : Type := mk_engine {
  m_tracker : gmap positive Z;
  m_obj_tracker : sls_tracker;
  m_best_model : gmap positive Z;
  m_best_model_score : Z;
  m_moves : nat;
  random_draws : nat;
  stopwatch_reads : nat;
  (** history of the trials made, kept for the statements only: the
      constant, the kind of move and the candidate value handed to each call
      of [what_if], latest first *)
  trials : list (positive * move_type * Z)
}.

Abbreviation m_hard_tracker := m_tracker (only parsing).

Definition with_tracker (st : engine) (vals : assignment) : engine :=
  {| m_tracker := vals; m_obj_tracker := m_obj_tracker st;
     m_best_model := m_best_model st; m_best_model_score := m_best_model_score st;
     m_moves := m_moves st; random_draws := random_draws st;
     stopwatch_reads := stopwatch_reads st; trials := trials st |}.

Definition with_obj_tracker (st : engine) (t : sls_tracker) : engine :=
  {| m_tracker := m_tracker st; m_obj_tracker := t;
     m_best_model := m_best_model st; m_best_model_score := m_best_model_score st;
     m_moves := m_moves st; random_draws := random_draws st;
     stopwatch_reads := stopwatch_reads st; trials := trials st |}.

Definition with_best (st : engine) (mdl : assignment) (score : Z) : engine :=
  {| m_tracker := m_tracker st; m_obj_tracker := m_obj_tracker st;
     m_best_model := mdl; m_best_model_score := score;
     m_moves := m_moves st; random_draws := random_draws st;
     stopwatch_reads := stopwatch_reads st; trials := trials st |}.

Definition with_moves (st : engine) (n : nat) : engine :=
  {| m_tracker := m_tracker st; m_obj_tracker := m_obj_tracker st;
     m_best_model := m_best_model st; m_best_model_score := m_best_model_score st;
     m_moves := n; random_draws := random_draws st;
     stopwatch_reads := stopwatch_reads st; trials := trials st |}.

Definition with_random_draws (st : engine) (n : nat) : engine :=
  {| m_tracker := m_tracker st; m_obj_tracker := m_obj_tracker st;
     m_best_model := m_best_model st; m_best_model_score := m_best_model_score st;
     m_moves := m_moves st; random_draws := n;
     stopwatch_reads := stopwatch_reads st; trials := trials st |}.

Definition with_stopwatch_reads (st : engine) (n : nat) : engine :=
  {| m_tracker := m_tracker st; m_obj_tracker := m_obj_tracker st;
     m_best_model := m_best_model st; m_best_model_score := m_best_model_score st;
     m_moves := m_moves st; random_draws := random_draws st;
     stopwatch_reads := n; trials := trials st |}.

Definition log_trial (st : engine) (fd : func_decl) (mv : move_type) (v : Z) : engine :=
  {| m_tracker := m_tracker st; m_obj_tracker := m_obj_tracker st;
     m_best_model := m_best_model st; m_best_model_score := m_best_model_score st;
     m_moves := m_moves st; random_draws := random_draws st;
     stopwatch_reads := stopwatch_reads st; trials := (fd, mv, v) :: trials st |}.

(** ** The engine *)

(** The outcome of a call that can end in a contract violation ([SASSERT]),
    in a cancellation raised by [checkpoint()], or, in this model only, in
    an exhausted iteration allowance. *)
Inductive outcome (A : Type) : Type :=
| Done (a : A)
| AssertionViolation
| Canceled
| OutOfFuel.

Arguments Done {A} a.
Arguments AssertionViolation {A}.
Arguments Canceled {A}.
Arguments OutOfFuel {A}.

(** The variables [find_best_move] and [what_if] receive by reference:
    [best_const], [best_value], [new_bit] and [move] are [maximize]'s
    [new_const], [new_value], [new_bit] and [move]; [best_score] is the
    [new_score] of [find_best_move]. [move] is declared without a value. *)
Record move_vars : Type := mk_move_vars {
  best_score : Z;
  best_const : N;
  best_value : Z;
  new_bit : nat;
  move : option move_type
}.

Definition set_best (l : move_vars) (score : Z) (inx : N) (v : Z) : move_vars :=
  {| best_score := score; best_const := inx; best_value := v;
     new_bit := new_bit l; move := move l |}.

Definition set_move (l : move_vars) (mv : move_type) : move_vars :=
  {| best_score := best_score l; best_const := best_const l;
     best_value := best_value l; new_bit := new_bit l; move := Some mv |}.

Definition set_new_bit (l : move_vars) (j : nat) : move_vars :=
  {| best_score := best_score l; best_const := best_const l;
     best_value := best_value l; new_bit := j; move := move l |}.

Definition set_best_const (l : move_vars) (inx : N) : move_vars :=
  {| best_score := best_score l; best_const := inx;
     best_value := best_value l; new_bit := new_bit l; move := move l |}.

Definition set_best_score (l : move_vars) (score : Z) : move_vars :=
  {| best_score := score; best_const := best_const l;
     best_value := best_value l; new_bit := new_bit l; move := move l |}.

(** [-DBL_MAX], what the pruned evaluation answers when the partial check
    fails. *)
Definition neg_DBL_MAX : Q := inject_Z (- (2 ^ 1024 - 2 ^ 971)).

Section Engine.

Variable W : collaborators.

(** *** Collaborator calls *)

(** Modelled from the spec: [m_evaluator.update(fd, v)], the Incremental
    Evaluator of the Hard Tracker: "records the proposed value and
    recomputes only dependent scores". *)
Definition evaluator_update (fd : func_decl) (v : Z) (st : engine) : engine :=
  with_tracker st (set_value fd v (m_tracker st)).

(** Modelled from the spec: [m_obj_evaluator.update(fd, v)], the same for
    the Objective Tracker. *)
Definition obj_evaluator_update (fd : func_decl) (v : Z) (st : engine) : engine :=
  with_obj_tracker st
    (tracker_with_values (m_obj_tracker st)
       (set_value fd v (values (m_obj_tracker st)))).

(** Modelled from the spec: [sls_engine::incremental_score], an update of
    the Hard Tracker "returning a satisfaction ratio". *)
Definition incremental_score (fd : func_decl) (v : Z) (st : engine) : Q * engine :=
  let st' := evaluator_update fd v st in
  (hard_score W (m_tracker st'), st').

(** Modelled from the spec: [sls_engine::incremental_score_prune], the same
    "using a cheaper partial check first": when the check fails the answer
    is [-DBL_MAX]. *)
Definition incremental_score_prune (fd : func_decl) (v : Z) (st : engine) : Q * engine :=
  let passed := update_prune W (m_tracker st) fd v in
  let st' := evaluator_update fd v st in
  (if passed then hard_score W (m_tracker st') else neg_DBL_MAX, st').

(** Modelled from the spec: [bvsls_opt_engine::top_score()], declared in
    the class header: the "exact current value of the objective
    expression" under the Objective Tracker's assignment. *)
Definition top_score (st : engine) : Z :=
  match top_exprs (m_obj_tracker st) with
  | e :: _ => eval (get_range W) (values (m_obj_tracker st)) e
  | [] => 0
  end.

(** Modelled from the spec: [m_obj_tracker.initialize(objs)], which "resets
    state over a given evaluation domain". *)
Definition tracker_initialize (es : list expr) : sls_tracker :=
  let cs := remove_dups (flat_map expr_constants es) in
  {| top_exprs := es; constants := cs;
     values := list_to_map (map (fun fd => (fd, initial_value W fd)) cs) |}.

(** Modelled from the spec: [tracker.set_model(mdl)], which seeds the
    tracker from an assignment: every constant of the tracker that [mdl]
    interprets takes the value [mdl] gives it. *)
Definition set_model (mdl : assignment) (t : sls_tracker) : sls_tracker :=
  tracker_with_values t
    (map_imap (fun fd v => Some (default v (mdl !! fd))) (values t)).

(** [tracker.get_model()]: a fresh model interpreting the tracker's
    constants by their current values. *)
Definition get_model (vals : assignment) : assignment := vals.

(** Modelled from the spec: [m_tracker.get_random_uint(bits)], "a uniformly
    random index over a range" of [2 ^ bits] values. *)
Definition get_random_uint (bits : nat) (st : engine) : Z * engine :=
  (random_source W (random_draws st) mod m_powers bits,
   with_random_draws st (S (random_draws st))).

(** Modelled from the spec: [m_tracker.get_random(srt)], "a random value
    from its sort's domain". *)
Definition get_random (s : sort) (st : engine) : Z * engine :=
  (random_source W (random_draws st)
     mod m_powers (if is_bool s then 1%nat else get_bv_size_of_sort s),
   with_random_draws st (S (random_draws st))).

(** [m_stats.m_stopwatch.get_current_seconds()]. *)
Definition get_current_seconds (st : engine) : Q * engine :=
  (stopwatch W (stopwatch_reads st),
   with_stopwatch_reads st (S (stopwatch_reads st))).

(** The conversion [(unsigned) seconds] of a reading. *)
Definition to_unsigned (secs : Q) : Z := Qfloor secs mod 2 ^ 32.

(** *** [save_model] *)

(** The loop of [save_model] over the interpretations of the objective
    model: [None] is the failure of [SASSERT(mdl->get_const_interp(fd) ==
    val)]. *)
Fixpoint save_model_merge (obj_mdl : list (func_decl * Z)) (mdl : assignment)
  : option assignment :=
  match obj_mdl with
  | [] => Some mdl
  | (fd, val) :: rest =>
      match mdl !! fd with
      | Some v =>
          if Z.eqb v val then save_model_merge rest mdl else None
      | None => save_model_merge rest (<[fd := val]> mdl)
      end
  end.

Definition save_model (score : Z) (st : engine) : option engine :=
  let mdl := get_model (m_hard_tracker st) in
  let obj_mdl := get_model (values (m_obj_tracker st)) in
  match save_model_merge (map_to_list obj_mdl) mdl with
  | Some mdl' => Some (with_best st mdl' score)
  | None => None
  end.

(** *** [what_if] *)

(** Returns whether the move improved on [best_score], with the variables
    received by reference and the engine as the call leaves them. *)
Definition what_if (fd : func_decl) (fd_inx : N) (temp : Z)
    (l : move_vars) (st : engine) : bool * move_vars * engine :=
  let '(r, st) :=
    if EARLY_PRUNE (cfg W) then incremental_score_prune fd temp st
    else incremental_score fd temp st in
  if Qle_bool 1 r && is_sat W (m_tracker st) then
    let st := obj_evaluator_update fd temp st in
    let cur_best := top_score st in
    if cur_best >? best_score l then
      (true, set_best l cur_best fd_inx temp, st)
    else (false, l, st)
  else (false, l, st).

(** *** [find_best_move] *)

(** One trial of the scan: [if (what_if(fd, i, temp, ...)) move = mv;]. *)
Definition try_move (fd : func_decl) (i : N) (mv : move_type) (temp : Z)
    (l : move_vars) (st : engine) : move_vars * engine :=
  let '(improved, l, st) := what_if fd i temp l (log_trial st fd mv temp) in
  (if improved then set_move l mv else l, st).

(** The loop [for (j = 0; j < bv_sz && new_score < max_score; j++)] over
    the bits still to flip. *)
Fixpoint flip_bits (fd : func_decl) (i : N) (srt : sort) (old_value max_score : Z)
    (bits : list nat) (l : move_vars) (st : engine) : move_vars * engine :=
  match bits with
  | [] => (l, st)
  | j :: bits' =>
      if best_score l <? max_score then
        let temp := mk_flip srt old_value j in
        let '(improved, l, st) := what_if fd i temp l (log_trial st fd MV_FLIP temp) in
        let l := if improved then set_move (set_new_bit l j) MV_FLIP else l in
        flip_bits fd i srt old_value max_score bits' l st
      else (l, st)
  end.

(** The body of the loop over [to_evaluate] for the constant [fd] at
    index [i]. *)
Definition scan_constant (fd : func_decl) (i : N) (max_score : Z)
    (l : move_vars) (st : engine) : move_vars * engine :=
  let srt := get_range W fd in
  let bv_sz := if is_bool srt then 1%nat else get_bv_size_of_sort srt in
  let old_value := get_value (m_tracker st) fd in
  (* first try to flip every bit *)
  let '(l, st) := flip_bits fd i srt old_value max_score (seq 0 bv_sz) l st in
  let '(l, st) :=
    if is_bv_sort srt && (1 <? bv_sz)%nat then
      let '(l, st) :=
        if USE_ADDSUB (cfg W) then
          if negb (Z.even old_value) then
            (* for odd values, try +1 *)
            try_move fd i MV_INC (mk_inc bv_sz old_value) l st
          else
            (* for even values, try -1 *)
            try_move fd i MV_DEC (mk_dec bv_sz old_value) l st
        else (l, st) in
      (* try inverting *)
      let temp := mk_inv bv_sz old_value in
      let '(l, st) := try_move fd i MV_INV temp l st in
      let '(l, st) :=
        if USE_UNARY_MINUS (cfg W) then
          let temp2 := mk_inc bv_sz temp in
          try_move fd i MV_UMIN temp2 l st
        else (l, st) in
      if USE_MUL2DIV2 (cfg W) then
        (* try multiplication by 2 *)
        let temp := mk_mul2 bv_sz old_value in
        let '(l, st) := try_move fd i MV_MUL2 temp l st in
        let '(l, st) :=
          if USE_MUL3 (cfg W) then
            (* try multiplication by 3 *)
            let temp2 := mk_add bv_sz old_value temp in
            try_move fd i MV_MUL3 temp2 l st
          else (l, st) in
        (* try division by 2 *)
        let temp := mk_div2 bv_sz old_value in
        try_move fd i MV_DIV2 temp l st
      else (l, st)
    else (l, st) in
  (* reset to what it was before *)
  let '(_, st) := incremental_score fd old_value st in
  (l, st).

(** The loop [for (i = 0; i < to_evaluate.size() && new_score < max_score;
    i++)], from index [i] on. *)
Fixpoint scan_constants (to_evaluate : list func_decl) (i : N) (max_score : Z)
    (l : move_vars) (st : engine) : move_vars * engine :=
  match to_evaluate with
  | [] => (l, st)
  | fd :: rest =>
      if best_score l <? max_score then
        let '(l, st) := scan_constant fd i max_score l st in
        scan_constants rest (N.succ i) max_score l st
      else (l, st)
  end.

(** [find_best_move]: [new_score] starts as the [score] received and is
    the [best_score] that [what_if] raises; the result is [new_score]. *)
Definition find_best_move (to_evaluate : list func_decl) (score : Z)
    (l : move_vars) (max_score : Z) (st : engine) : Z * move_vars * engine :=
  let '(l', st) :=
    scan_constants to_evaluate 0%N max_score (set_best_score l score) st in
  (best_score l', l', st).

(** *** [randomize_wrt_hard] *)

(** The number of random bits drawn for an index among [csz] constants:
    [(csz < 16) ? 4 : (csz < 256) ? 8 : (csz < 4096) ? 12 :
     (csz < 65536) ? 16 : 32]. *)
Definition random_bits (csz : Z) : nat :=
  if csz <? 16 then 4%nat
  else if csz <? 256 then 8%nat
  else if csz <? 4096 then 12%nat
  else if csz <? 65536 then 16%nat
  else 32%nat.

(** [unsigned ri = (m_tracker.get_random_uint(...)) % csz;] *)
Definition random_index (csz : Z) (st : engine) : Z * engine :=
  let '(r, st) := get_random_uint (random_bits csz) st in
  (r mod csz, st).

(** The loop [while (retry_count-- > 0)]. *)
Fixpoint randomize_retries (retry_count : nat) (consts : list func_decl)
    (csz : Z) (st : engine) : bool * engine :=
  match retry_count with
  | O => (false, st)
  | S retry_count =>
      let '(ri, st) := random_index csz st in
      match consts !! Z.to_nat ri with
      | Some random_fd =>
          let '(random_val, st) := get_random (get_range W random_fd) st in
          let old_value := get_value (m_tracker st) random_fd in
          if negb (random_val =? old_value) then
            let st := evaluator_update random_fd random_val st in
            if is_sat W (m_hard_tracker st) then
              (true, obj_evaluator_update random_fd random_val st)
            else
              randomize_retries retry_count consts csz
                (evaluator_update random_fd old_value st)
          else randomize_retries retry_count consts csz st
      | None => (false, st) (* not reached: [ri < csz] *)
      end
  end.

Definition randomize_wrt_hard (st : engine) : bool * engine :=
  let consts := constants (m_obj_tracker st) in
  let csz := length consts in
  let retry_count := csz in
  randomize_retries retry_count consts (Z.of_nat csz) st.

(** *** [maximize] and [minimize] *)

(** The condition of the [while] of [maximize], evaluated left to right
    with the short circuit of [&&]; [score] is the variable declared
    before the loop. *)
Definition loop_condition (score max_score : Z) (st : engine) : bool * engine :=
  let '(secs, st) := get_current_seconds st in
  if check_restart W (to_unsigned secs) then
    let '(secs, st) := get_current_seconds st in
    if negb (Qle_bool (TIMELIMIT (cfg W)) secs) then (score <? max_score, st)
    else (false, st)
  else (false, st).

(** How one pass through the body of the loop ends. [Continue] carries
    the value the body leaves in its own [score]. *)
Inductive iteration : Type :=
| Continue (inner_score : Z) (l : move_vars) (st : engine)
| Bailout (l : move_vars) (st : engine)
| IterationViolation
| IterationCanceled.

(** The body of the loop. The declaration [mpz score(0);] in the body
    introduces a second variable [score] that hides the outer one from
    there to the end of the body: every later [score] of the body,
    starting with the argument of [find_best_move], is this inner
    variable, written [inner] here; the outer [score] is only read, into
    [old_score]. *)
Definition loop_body (consts : list func_decl) (score max_score : Z)
    (l : move_vars) (st : engine) : iteration :=
  (* checkpoint() *)
  if cancel_requested W (m_moves st) then IterationCanceled else
  let st := with_moves st (S (m_moves st)) in
  let old_score := score in
  let l := set_best_const l UINT_MAX in
  let inner := 0 in
  let '(inner, l, st) := find_best_move consts inner l max_score st in
  if (best_const l =? UINT_MAX)%N then
    let inner := old_score in
    match (if inner >? m_best_model_score st then save_model inner st
           else Some st) with
    | None => IterationViolation
    | Some st =>
        let '(randomized, st) := randomize_wrt_hard st in
        if negb randomized then
          (* Can't improve and can't randomize; bail out. *)
          Bailout l st
        else
          let inner := top_score st in
          Continue inner l st
    end
  else
    match consts !! N.to_nat (best_const l) with
    | Some fd =>
        let '(_, st) := incremental_score fd (best_value l) st in
        let inner := top_score st in
        Continue inner l st
    | None => IterationViolation (* not reached: an index of [consts] *)
    end.

(** The [while] loop, for at most [fuel] evaluations of its condition. *)
Fixpoint maximize_loop (fuel : nat) (consts : list func_decl)
    (score max_score : Z) (l : move_vars) (st : engine) : outcome engine :=
  match fuel with
  | O => OutOfFuel
  | S fuel =>
      let '(go, st) := loop_condition score max_score st in
      if go then
        match loop_body consts score max_score l st with
        | Continue _ l st => maximize_loop fuel consts score max_score l st
        | Bailout _ st => Done st
        | IterationViolation => AssertionViolation
        | IterationCanceled => Canceled
        end
      else Done st
  end.

(** The variables of [maximize] handed to [find_best_move] by reference,
    as declared: [new_const = (unsigned)-1, new_bit = 0]. *)
Definition initial_move_vars : move_vars :=
  {| best_score := 0; best_const := UINT_MAX; best_value := 0;
     new_bit := 0; move := None |}.

(** The part of [maximize] before its loop: the Objective Tracker is
    initialized on the objective and seeded from the Hard Tracker. *)
Definition setup_objective (objective : expr) (st : engine) : engine :=
  let objs := [objective] in
  let st := with_obj_tracker st (tracker_initialize objs) in
  (* m_obj_evaluator.update_all(): values are exact at all times here *)
  with_obj_tracker st
    (set_model (get_model (m_hard_tracker st)) (m_obj_tracker st)).

Definition maximize (fuel : nat) (objective : expr) (st : engine)
  : outcome (expr * engine) :=
  (* SASSERT(m_hard_tracker.is_sat()) *)
  if negb (is_sat W (m_hard_tracker st)) then AssertionViolation else
  let obj_e := objective in
  let obj_bv_sz := get_bv_size (get_range W) obj_e in
  let st := setup_objective objective st in
  let consts := constants (m_obj_tracker st) in
  (* m_obj_tracker.get_value(obj_e) *)
  let score := eval (get_range W) (values (m_obj_tracker st)) obj_e in
  let max_score := m_powers obj_bv_sz - 1 in
  match save_model score st with
  | None => AssertionViolation
  | Some st =>
      match maximize_loop fuel consts score max_score initial_move_vars st with
      | Done st => Done (mk_numeral (m_best_model_score st) obj_bv_sz, st)
      | AssertionViolation => AssertionViolation
      | Canceled => Canceled
      | OutOfFuel => OutOfFuel
      end
  end.

Definition minimize (fuel : nat) (objective : expr) (st : engine)
  : outcome (expr * engine) :=
  let n_obj := mk_bv_neg objective in
  maximize fuel n_obj st.

End Engine.

(** ** The driver [optimize] *)

(** The verdict type [lbool] of the solver. *)
Inductive lbool : Type := l_false | l_undef | l_true.

#[global] Instance lbool_eq_dec : EqDecision lbool.
Proof. solve_decision. Defined.

(** [bvsls_opt_engine::optimization_result]; it is constructed with the
    verdict [l_undef] and no optimum. *)
Record optimization_result : Type := mk_optimization_result {
  res_is_sat : lbool;
  optimum : option expr
}.

(** The part of the engine that belongs to the base engine [sls_engine] and
    that its methods may change: the tracker of the assertions, the move
    counter, the random source and the stopwatch. *)
Record base_state : Type := mk_base_state {
  bs_tracker : gmap positive Z;
  bs_moves : nat;
  bs_random_draws : nat;
  bs_stopwatch_reads : nat
}.

Definition with_base (st : engine) (b : base_state) : engine :=
  {| m_tracker := bs_tracker b; m_obj_tracker := m_obj_tracker st;
     m_best_model := m_best_model st; m_best_model_score := m_best_model_score st;
     m_moves := bs_moves b; random_draws := bs_random_draws b;
     stopwatch_reads := bs_stopwatch_reads b; trials := trials st |}.

(** What [optimize] consumes from the base engine, besides what
    [collaborators] already holds. The definitions are outside this
    translation unit, so they are parameters. *)
Record base_engine : Type := mk_base_engine {
  (** the integer value of each enumerator of [lbool], which decides the
      tests [!res.is_sat] and [if (res.is_sat)] *)
  lbool_value : lbool -> Z;
  (** the constants of [m_assertions] *)
  assertion_constants : list func_decl;
  (** [m_max_restarts] *)
  m_max_restarts : Z;
  (** [sls_engine::search()], called with [m_stats.m_restarts] at the given
      value on the given engine: its verdict and what it leaves of the base
      engine *)
  search : Z -> engine -> lbool * base_state;
  (** [m_hard_tracker.randomize(m_assertions)] *)
  randomize : engine -> base_state
}.

Section Driver.

Variable W : collaborators.
Variable B : base_engine.

(** [m_bv_util.is_bv(objective)]. *)
Definition is_bv (e : expr) : bool :=
  match e with
  | EConst fd => is_bv_sort (get_range W fd)
  | _ => true
  end.

(** The conversion of a verdict to [bool] in a condition. *)
Definition lbool_true (v : lbool) : bool := negb (lbool_value B v =? 0).

(** Modelled from the spec: [m_hard_tracker.initialize(m_assertions)] and
    [m_hard_tracker.set_model(initial_model)]: "Hard Tracker is initialized
    once per call from the assertion set, optionally seeded from a
    caller-supplied assignment". *)
Definition setup_hard_tracker (initial_model : option (gmap positive Z))
    (st : engine) : engine :=
  let cs := remove_dups (assertion_constants B) in
  let t := {| top_exprs := []; constants := cs;
              values := list_to_map (map (fun fd => (fd, initial_value W fd)) cs) |} in
  let st := with_tracker st (values t) in
  match initial_model with
  | Some mdl => with_tracker st (values (set_model mdl t))
  | None => st
  end.

(** The [do ... while] of [optimize], for at most [fuel] passes. The result
    carries the verdict, [m_stats.m_restarts] and the engine. *)
Fixpoint satisfy_loop (fuel : nat) (restarts : Z) (st : engine)
  : outcome (lbool * Z * engine) :=
  match fuel with
  | O => OutOfFuel
  | S fuel =>
      (* checkpoint() *)
      if cancel_requested W (m_moves st) then Canceled else
      let '(verdict, b) := search B restarts st in
      let st := with_base st b in
      let st :=
        if bool_decide (verdict = l_undef) then with_base st (randomize B st)
        else st in
      let '(secs, st) := get_current_seconds W st in
      if negb (Qle_bool (TIMELIMIT (cfg W)) secs) then
        if negb (bool_decide (verdict = l_true)) then
          (* m_stats.m_restarts++ < m_max_restarts *)
          let restarts' := (restarts + 1) mod 2 ^ 32 in
          if restarts <? m_max_restarts B then satisfy_loop fuel restarts' st
          else Done (verdict, restarts', st)
        else Done (verdict, restarts, st)
      else Done (verdict, restarts, st)
  end.

(** [optimize]; [restarts] is [m_stats.m_restarts] at the call, and the
    result carries its value at the return. *)
Definition optimize (fuel : nat) (objective : expr)
    (initial_model : option (gmap positive Z)) (_maximize : bool)
    (restarts : Z) (st : engine)
  : outcome (optimization_result * Z * engine) :=
  (* SASSERT(m_bv_util.is_bv(objective)) *)
  if negb (is_bv objective) then AssertionViolation else
  let st := setup_hard_tracker initial_model st in
  let verdict := if is_sat W (m_hard_tracker st) then l_true else l_undef in
  match (if negb (lbool_true verdict) then satisfy_loop fuel restarts st
         else Done (verdict, restarts, st)) with
  | Done (verdict, restarts, st) =>
      if lbool_true verdict then
        match (if _maximize then maximize W fuel objective st
               else minimize W fuel objective st) with
        | Done (r, st) =>
            Done ({| res_is_sat := verdict; optimum := Some r |}, restarts, st)
        | AssertionViolation => AssertionViolation
        | Canceled => Canceled
        | OutOfFuel => OutOfFuel
        end
      else Done ({| res_is_sat := verdict; optimum := None |}, restarts, st)
  | AssertionViolation => AssertionViolation
  | Canceled => Canceled
  | OutOfFuel => OutOfFuel
  end.

End Driver.

(** * Notions used in the statements *)

(** The parts of the engine that neither the move scan nor the randomized
    escape writes: the best-known result, the move counter, the stopwatch
    and the shape of the Objective Tracker. *)
Definition bookkeeping_kept (st st' : engine) : Prop :=
  m_best_model st' = m_best_model st /\
  m_best_model_score st' = m_best_model_score st /\
  m_moves st' = m_moves st /\
  stopwatch_reads st' = stopwatch_reads st /\
  top_exprs (m_obj_tracker st') = top_exprs (m_obj_tracker st) /\
  constants (m_obj_tracker st') = constants (m_obj_tracker st).

(** The effect of a trial on the Hard Tracker: the value of the one
    constant under scan is replaced, or nothing at all. *)
Definition only_moved (fd : positive) (st st' : engine) : Prop :=
  m_tracker st' = m_tracker st \/ exists v, m_tracker st' = set_value fd v (m_tracker st).

(** The trials of the flip loop are flips of the constant under scan. *)
Definition flip_of (fd : positive) (srt : sort) (old_value : Z)
    (t : positive * move_type * Z) : Prop :=
  exists j, t = (fd, MV_FLIP, mk_flip srt old_value j).

(** The candidates of a constant after its flips, in the order tried.
    This follows the design document's catalog, steps 2 to 7: increment
    or decrement by parity, invert, unary minus, multiply by 2, multiply
    by 3, divide by 2, each under its switch. *)
Definition move_catalog (c : settings) (fd : positive) (bv_sz : nat)
    (old_value : Z) : list (positive * move_type * Z) :=
  (if USE_ADDSUB c then
     [if negb (Z.even old_value) then (fd, MV_INC, mk_inc bv_sz old_value)
      else (fd, MV_DEC, mk_dec bv_sz old_value)]
   else []) ++
  [(fd, MV_INV, mk_inv bv_sz old_value)] ++
  (if USE_UNARY_MINUS c then
     [(fd, MV_UMIN, mk_inc bv_sz (mk_inv bv_sz old_value))]
   else []) ++
  (if USE_MUL2DIV2 c then
     [(fd, MV_MUL2, mk_mul2 bv_sz old_value)] ++
     (if USE_MUL3 c then
        [(fd, MV_MUL3, mk_add bv_sz old_value (mk_mul2 bv_sz old_value))]
      else []) ++
     [(fd, MV_DIV2, mk_div2 bv_sz old_value)]
   else []).

(** The two models agree: a constant interpreted by both has one value. *)
Definition models_agree (mdl obj_mdl : gmap positive Z) : Prop :=
  forall fd a b, mdl !! fd = Some a -> obj_mdl !! fd = Some b -> a = b.



(** The numeral a call returned, if it returned. *)
Definition optimum_of (o : outcome (expr * engine)) : option expr :=
  match o with Done (r, _) => Some r | _ => None end.

(** The engine a call left behind, if it returned ([st] otherwise). *)
Definition engine_after {A : Type} (o : outcome (A * engine)) (st : engine) : engine :=
  match o with Done (_, st') => st' | _ => st end.

(** The engine a loop left behind, if it ended ([st] otherwise). *)
Definition engine_of (o : outcome engine) (st : engine) : engine :=
  match o with Done st' => st' | _ => st end.

(** The best-known result advanced from [st] to [st']: its score did not
    decrease, and if the stored pair changed at all, the score grew. *)
Definition best_known_advances (st st' : engine) : Prop :=
  m_best_model_score st <= m_best_model_score st' /\
  ((m_best_model st', m_best_model_score st')
     <> (m_best_model st, m_best_model_score st) ->
   m_best_model_score st < m_best_model_score st').

(** The design document's reading of the index range of the randomized
    escape: "a range sized to the next power-of-two >= variable count". *)
Definition next_power_of_two (n : Z) : Z := 2 ^ Z.log2_up n.

(** ** Concrete engines

    Small instances on which the statements are evaluated. *)

(** Increment/decrement enabled, the other optional moves and the pruning
    check disabled, a time budget of six seconds. *)
Definition example_settings : settings :=
  {| USE_ADDSUB := true; USE_UNARY_MINUS := false; USE_MUL2DIV2 := false;
     USE_MUL3 := false; EARLY_PRUNE := false; TIMELIMIT := 6%Q |}.

(** Collaborators for a formula without assertions over constants of [w]
    bits: always satisfied, never canceled, restarts always allowed, a
    stopwatch that advances one second per reading, and the raw random
    numbers 0, 1, 2, ... *)
Definition free_world (w : nat) : collaborators :=
  {| get_range := fun _ => BV_sort w; cfg := example_settings;
     is_sat := fun _ => true; hard_score := fun _ => 1%Q;
     update_prune := fun _ _ _ => true; initial_value := fun _ => 0;
     random_source := fun n => Z.of_nat n;
     stopwatch := fun n => inject_Z (Z.of_nat n);
     check_restart := fun _ => true; cancel_requested := fun _ => false |}.

(** A fresh engine whose Hard Tracker holds [vals]. *)
Definition engine_with (vals : gmap positive Z) : engine :=
  {| m_tracker := vals;
     m_obj_tracker := {| top_exprs := []; constants := []; values := ∅ |};
     m_best_model := ∅; m_best_model_score := 0; m_moves := 0;
     random_draws := 0; stopwatch_reads := 0; trials := [] |}.

(** One constant [x] of three bits with value [x0]; the objective is [x]. *)
Definition x_obj : expr := EConst 1.

Definition x_engine (x0 : Z) : engine := engine_with {[ 1%positive := x0 ]}.

(** [x_engine 0] as [maximize] has it when it reaches its loop: set up on
    the objective [x], first save done. *)
Definition x_at_loop : engine :=
  with_best (setup_objective (free_world 3) x_obj (x_engine 0))
    {[ 1%positive := 0 ]} 0.

(** An engine left by an earlier optimization of [x]: the Hard Tracker
    has [x = 0] and the Objective Tracker still holds [x = 6]. *)
Definition obj_engine_6 : engine :=
  with_obj_tracker (x_engine 0)
    {| top_exprs := [x_obj]; constants := [1%positive];
       values := {[ 1%positive := 6 ]} |}.

(** Two constants [x], [y] of two bits, both 0; the objective is [x & y]. *)
Definition xy_obj : expr := EBvAnd (EConst 1) (EConst 2).

Definition xy_engine : engine :=
  setup_objective (free_world 2) xy_obj
    (engine_with (<[ 1%positive := 0 ]> {[ 2%positive := 0 ]})).

(** The by-reference variables [l] describe a move found by a scan over
    [to_evaluate] that started at the score [score] with the Hard Tracker at
    [vals0]: the score was raised, [best_const] is the index of a constant of
    [to_evaluate], and the Hard Tracker accepts [best_value] for it. *)
Definition reports_move (W : collaborators) (to_evaluate : list positive)
    (vals0 : gmap positive Z) (score : Z) (l : move_vars) : Prop :=
  score < best_score l /\
  exists fd, to_evaluate !! N.to_nat (best_const l) = Some fd /\
             is_sat W (set_value fd (best_value l) vals0) = true.

(** What a scan that started with the variables [l0] has made of them:
    nothing, or a reported move. *)
Definition scan_invariant (W : collaborators) (to_evaluate : list positive)
    (vals0 : gmap positive Z) (l0 l : move_vars) : Prop :=
  l = l0 \/ reports_move W to_evaluate vals0 (best_score l0) l.

(** A concrete base engine: the enumerators of [lbool] valued -1, 0, 1, one
    asserted constant, at most two restarts, a search that sets the
    constant to 3 and answers [l_true], and a randomization that changes
    nothing. *)
Definition example_base : base_engine :=
  {| lbool_value := fun v => match v with l_false => -1 | l_undef => 0 | l_true => 1 end;
     assertion_constants := [1%positive];
     m_max_restarts := 2;
     search := fun _ st =>
       (l_true, {| bs_tracker := set_value 1 3 (m_tracker st);
                   bs_moves := S (m_moves st);
                   bs_random_draws := random_draws st;
                   bs_stopwatch_reads := stopwatch_reads st |});
     randomize := fun st =>
       {| bs_tracker := m_tracker st; bs_moves := m_moves st;
          bs_random_draws := random_draws st;
          bs_stopwatch_reads := stopwatch_reads st |} |}.

(** The same with a search that never succeeds (verdict [l_undef]). *)
Definition stuck_base : base_engine :=
  {| lbool_value := lbool_value example_base;
     assertion_constants := [1%positive];
     m_max_restarts := 2;
     search := fun _ st =>
       (l_undef, {| bs_tracker := m_tracker st; bs_moves := S (m_moves st);
                    bs_random_draws := random_draws st;
                    bs_stopwatch_reads := stopwatch_reads st |});
     randomize := randomize example_base |}.

(** The same with the greatest restart budget an unsigned number holds. *)
Definition wrapping_base : base_engine :=
  {| lbool_value := lbool_value example_base;
     assertion_constants := [1%positive];
     m_max_restarts := 4294967295;
     search := search stuck_base;
     randomize := randomize example_base |}.

(** Collaborators over three-bit constants whose only assertion is
    [x < 4]; otherwise as [free_world 3]. *)
Definition bounded_world : collaborators :=
  {| get_range := fun _ => BV_sort 3; cfg := example_settings;
     is_sat := fun vals => get_value vals 1 <? 4;
     hard_score := fun vals => if get_value vals 1 <? 4 then 1%Q else 0%Q;
     update_prune := fun _ _ _ => true; initial_value := fun _ => 7;
     random_source := fun n => Z.of_nat n;
     stopwatch := fun n => inject_Z (Z.of_nat n);
     check_restart := fun _ => true; cancel_requested := fun _ => false |}.

(** * Properties *)

(** ** Values and assignments *)

Lemma m_powers_pos (n : nat) : 0 < m_powers n.
Proof. unfold m_powers. apply Z.pow_pos_nonneg; lia. Qed.

Lemma set_value_twice (fd : positive) (v1 v2 : Z) (vals : gmap positive Z) :
  set_value fd v2 (set_value fd v1 vals) = set_value fd v2 vals.
Proof.
  unfold set_value. destruct (vals !! fd) as [x|] eqn:E.
  - rewrite lookup_insert_eq. apply insert_insert_eq.
  - rewrite E. reflexivity.
Qed.

Lemma set_value_current (fd : positive) (vals : gmap positive Z) :
  set_value fd (get_value vals fd) vals = vals.
Proof.
  unfold set_value, get_value. destruct (vals !! fd) as [x|] eqn:E; simpl.
  - apply insert_id. exact E.
  - reflexivity.
Qed.

Lemma get_value_set_value (fd fd' : positive) (v : Z) (vals : gmap positive Z) :
  get_value (set_value fd v vals) fd' =
  if decide (fd = fd') then match vals !! fd with Some _ => v | None => 0 end
  else get_value vals fd'.
Proof.
  unfold set_value, get_value. destruct (vals !! fd) as [x|] eqn:E.
  - rewrite lookup_insert. destruct (decide (fd = fd')); reflexivity.
  - destruct (decide (fd = fd')) as [<-|]; [rewrite E|]; reflexivity.
Qed.

(** ** What a scan leaves alone *)

Lemma bookkeeping_kept_refl (st : engine) : bookkeeping_kept st st.
Proof. repeat split. Qed.

Lemma bookkeeping_kept_trans (st1 st2 st3 : engine) :
  bookkeeping_kept st1 st2 -> bookkeeping_kept st2 st3 -> bookkeeping_kept st1 st3.
Proof.
  unfold bookkeeping_kept. intros (?&?&?&?&?&?) (?&?&?&?&?&?).
  repeat split; congruence.
Qed.

Lemma only_moved_refl (fd : positive) (st : engine) : only_moved fd st st.
Proof. left. reflexivity. Qed.

Lemma only_moved_trans (fd : positive) (st1 st2 st3 : engine) :
  only_moved fd st1 st2 -> only_moved fd st2 st3 -> only_moved fd st1 st3.
Proof.
  intros [H1|[v1 H1]] [H2|[v2 H2]].
  - left. congruence.
  - right. exists v2. congruence.
  - right. exists v1. congruence.
  - right. exists v2. rewrite H2, H1. apply set_value_twice.
Qed.

Section ScanFacts.

Variable W : collaborators.

Lemma what_if_hard_tracker fd i temp l st :
  m_tracker (what_if W fd i temp l st).2 = set_value fd temp (m_tracker st).
Proof.
  unfold what_if, incremental_score_prune, incremental_score.
  destruct (EARLY_PRUNE (cfg W)); simpl;
    repeat match goal with |- context [if ?b then _ else _] => destruct b end;
    reflexivity.
Qed.

Lemma what_if_bookkeeping fd i temp l st :
  bookkeeping_kept st (what_if W fd i temp l st).2 /\
  random_draws (what_if W fd i temp l st).2 = random_draws st /\
  trials (what_if W fd i temp l st).2 = trials st.
Proof.
  unfold what_if, incremental_score_prune, incremental_score.
  destruct (EARLY_PRUNE (cfg W)); simpl;
    repeat match goal with |- context [if ?b then _ else _] => destruct b end;
    simpl; repeat split.
Qed.

Lemma what_if_best_const fd i temp l st :
  best_const (what_if W fd i temp l st).1.2 = best_const l \/
  best_const (what_if W fd i temp l st).1.2 = i.
Proof.
  unfold what_if.
  destruct (if EARLY_PRUNE (cfg W) then incremental_score_prune W fd temp st
            else incremental_score W fd temp st) as [r st1].
  repeat match goal with |- context [if ?b then _ else _] => destruct b end;
    simpl; auto.
Qed.

Lemma try_move_facts fd i mv temp l st l' st' :
  try_move W fd i mv temp l st = (l', st') ->
  m_tracker st' = set_value fd temp (m_tracker st) /\
  bookkeeping_kept st st' /\
  random_draws st' = random_draws st /\
  trials st' = (fd, mv, temp) :: trials st /\
  (best_const l' = best_const l \/ best_const l' = i).
Proof.
  unfold try_move.
  pose proof (what_if_hard_tracker fd i temp l (log_trial st fd mv temp)) as Ht.
  pose proof (what_if_bookkeeping fd i temp l (log_trial st fd mv temp)) as (Hb & Hr & Hl).
  pose proof (what_if_best_const fd i temp l (log_trial st fd mv temp)) as Hc.
  destruct (what_if W fd i temp l (log_trial st fd mv temp)) as [[b l1] st1].
  simpl in *. intros [= <- <-].
  split; [exact Ht|]. split; [exact Hb|]. split; [exact Hr|].
  split; [exact Hl|]. destruct b; simpl; exact Hc.
Qed.

Lemma flip_bits_facts fd i srt old_value max_score bits :
  forall l st l' st',
  flip_bits W fd i srt old_value max_score bits l st = (l', st') ->
  only_moved fd st st' /\
  bookkeeping_kept st st' /\
  random_draws st' = random_draws st /\
  (exists new, trials st' = new ++ trials st /\
               Forall (flip_of fd srt old_value) new) /\
  (best_const l' = best_const l \/ best_const l' = i).
Proof.
  induction bits as [|j bits IH]; intros l st l' st' H; simpl in H.
  - injection H as <- <-.
    split; [apply only_moved_refl|]. split; [apply bookkeeping_kept_refl|].
    split; [reflexivity|]. split; [|left; reflexivity].
    exists []. split; [reflexivity | constructor].
  - destruct (best_score l <? max_score).
    + set (temp := mk_flip srt old_value j) in *.
      pose proof (what_if_hard_tracker fd i temp l (log_trial st fd MV_FLIP temp)) as Ht.
      pose proof (what_if_bookkeeping fd i temp l (log_trial st fd MV_FLIP temp)) as (Hb & Hr & Hl).
      pose proof (what_if_best_const fd i temp l (log_trial st fd MV_FLIP temp)) as Hc.
      destruct (what_if W fd i temp l (log_trial st fd MV_FLIP temp)) as [[b l1] st1].
      simpl in Ht, Hb, Hr, Hl, Hc.
      apply IH in H as (Hm & Hk & Hd & (new & Hn & Hf) & Hbc).
      split; [|split; [|split; [|split]]].
      * eapply only_moved_trans; [|exact Hm]. right. exists temp. exact Ht.
      * eapply bookkeeping_kept_trans; [|exact Hk]. exact Hb.
      * congruence.
      * exists (new ++ [(fd, MV_FLIP, temp)]). split.
        -- rewrite Hn, Hl. simpl. rewrite <- app_assoc. reflexivity.
        -- apply Forall_app. split; [exact Hf|]. constructor; [|constructor].
           exists j. reflexivity.
      * destruct b; simpl in Hbc; destruct Hbc as [->| ->]; auto.
    + injection H as <- <-.
      split; [apply only_moved_refl|]. split; [apply bookkeeping_kept_refl|].
      split; [reflexivity|]. split; [|left; reflexivity].
      exists []. split; [reflexivity | constructor].
Qed.

Ltac try_move_step st :=
  match goal with
  | H : context [try_move W ?fd ?i ?mv ?t ?l ?s] |- _ =>
      let E := fresh "E" in
      let l1 := fresh "l" in
      let s1 := fresh "s" in
      let Ht := fresh "Ht" in
      let Hb := fresh "Hb" in
      let Hr := fresh "Hr" in
      let Hl := fresh "Hl" in
      let Hc := fresh "Hc" in
      destruct (try_move W fd i mv t l s) as [l1 s1] eqn:E;
      apply try_move_facts in E;
      destruct E as (Ht & Hb & Hr & Hl & Hc);
      match goal with
      | Hm : only_moved fd st s, Hk : bookkeeping_kept st s,
        Hd : random_draws s = random_draws st, Hn : trials s = _,
        Hbc : best_const l = ?a \/ best_const l = ?b |- _ =>
          pose proof (only_moved_trans _ _ _ _ Hm (or_intror (ex_intro _ t Ht)));
          pose proof (bookkeeping_kept_trans _ _ _ Hk Hb);
          rewrite Hd in Hr; rewrite Hn in Hl;
          assert (best_const l1 = a \/ best_const l1 = b)
            by (destruct Hc as [Hc|Hc]; rewrite Hc; auto);
          clear Hm Hk Hd Hn Hbc Ht Hb Hc
      end
  end.

Lemma scan_constant_facts fd i max_score l st l' st' :
  scan_constant W fd i max_score l st = (l', st') ->
  let srt := get_range W fd in
  let bv_sz := if is_bool srt then 1%nat else get_bv_size_of_sort srt in
  let old_value := get_value (m_tracker st) fd in
  m_tracker st' = m_tracker st /\
  bookkeeping_kept st st' /\
  random_draws st' = random_draws st /\
  (exists flips,
      Forall (flip_of fd srt old_value) flips /\
      trials st' =
        rev (if is_bv_sort srt && (1 <? bv_sz)%nat
             then move_catalog (cfg W) fd bv_sz old_value else [])
        ++ flips ++ trials st) /\
  (best_const l' = best_const l \/ best_const l' = i).
Proof.
  intros H srt bv_sz old_value. unfold scan_constant in H.
  fold srt in H. fold bv_sz in H. fold old_value in H.
  destruct (flip_bits W fd i srt old_value max_score (seq 0 bv_sz) l st)
    as [l0 st0] eqn:Ef.
  apply flip_bits_facts in Ef as (Hm & Hk & Hd & (flips & Hn & Hf) & Hbc).
  assert (Hfin : forall lk sk,
    only_moved fd st sk -> bookkeeping_kept st sk ->
    random_draws sk = random_draws st ->
    (best_const lk = best_const l \/ best_const lk = i) ->
    forall cat, trials sk = rev cat ++ flips ++ trials st ->
    (let '(_, s) := incremental_score W fd old_value sk in (lk, s)) = (l', st') ->
    m_tracker st' = m_tracker st /\ bookkeeping_kept st st' /\
    random_draws st' = random_draws st /\
    (exists flips0, Forall (flip_of fd srt old_value) flips0 /\
        trials st' = rev cat ++ flips0 ++ trials st) /\
    (best_const l' = best_const l \/ best_const l' = i)).
  { intros lk sk Hm' Hk' Hd' Hc' cat Ht' [= <- <-]. simpl.
    split.
    { destruct Hm' as [-> | [v ->]].
      - apply set_value_current.
      - rewrite set_value_twice. apply set_value_current. }
    split; [exact Hk'|]. split; [exact Hd'|]. split; [|exact Hc'].
    exists flips. split; [exact Hf | exact Ht']. }
  unfold move_catalog.
  destruct (is_bv_sort srt && (1 <? bv_sz)%nat).
  2:{ destruct (incremental_score W fd old_value st0) as [q s] eqn:Ei.
      apply (Hfin l0 st0 Hm Hk Hd Hbc []); [exact Hn|]. rewrite Ei. exact H. }
  destruct (USE_ADDSUB (cfg W)), (negb (Z.even old_value)),
    (USE_UNARY_MINUS (cfg W)), (USE_MUL2DIV2 (cfg W)), (USE_MUL3 (cfg W));
    repeat try_move_step st;
    match goal with
    | Hm : only_moved fd st ?s, Hk : bookkeeping_kept st ?s,
      Hd : random_draws ?s = random_draws st, Hn : trials ?s = _,
      Hbc : best_const ?lk = _ \/ best_const ?lk = _ |- context [rev ?c] =>
        apply (Hfin lk s Hm Hk Hd Hbc c); [rewrite Hn; reflexivity | exact H]
    end.
Qed.

Lemma scan_constants_facts to_evaluate max_score :
  forall i l st l' st',
  scan_constants W to_evaluate i max_score l st = (l', st') ->
  m_tracker st' = m_tracker st /\
  bookkeeping_kept st st' /\
  random_draws st' = random_draws st /\
  (exists new, trials st' = new ++ trials st) /\
  (best_const l' = best_const l \/
   (i <= best_const l' < i + N.of_nat (length to_evaluate))%N).
Proof.
  induction to_evaluate as [|fd rest IH]; intros i l st l' st' H; simpl in H.
  - injection H as <- <-.
    split; [reflexivity|]. split; [apply bookkeeping_kept_refl|].
    split; [reflexivity|]. split; [exists []; reflexivity | left; reflexivity].
  - destruct (best_score l <? max_score).
    + destruct (scan_constant W fd i max_score l st) as [l1 st1] eqn:E.
      apply scan_constant_facts in E as (Ht & Hk & Hd & (fl & _ & Hn) & Hc).
      apply IH in H as (Ht' & Hk' & Hd' & (new & Hn') & Hc').
      split; [congruence|].
      split; [eapply bookkeeping_kept_trans; eassumption|].
      split; [congruence|]. split.
      * rewrite Hn', Hn. eexists. rewrite !app_assoc. reflexivity.
      * simpl length. destruct Hc' as [Hc'|Hc'].
        -- rewrite Hc'. destruct Hc as [Hc|Hc]; [left; exact Hc | right; lia].
        -- right. lia.
    + injection H as <- <-.
      split; [reflexivity|]. split; [apply bookkeeping_kept_refl|].
      split; [reflexivity|]. split; [exists []; reflexivity | left; reflexivity].
Qed.

Lemma find_best_move_facts to_evaluate score l max_score st new_score l' st' :
  find_best_move W to_evaluate score l max_score st = (new_score, l', st') ->
  m_tracker st' = m_tracker st /\
  bookkeeping_kept st st' /\
  random_draws st' = random_draws st /\
  (exists new, trials st' = new ++ trials st) /\
  (best_const l' = best_const l \/
   (best_const l' < N.of_nat (length to_evaluate))%N).
Proof.
  unfold find_best_move.
  destruct (scan_constants W to_evaluate 0 max_score (set_best_score l score) st)
    as [l1 st1] eqn:E.
  intros [= _ <- <-].
  apply scan_constants_facts in E as (Ht & Hk & Hd & Hn & Hc).
  simpl in Hc. repeat (split; [assumption|]).
  destruct Hc as [Hc|Hc]; [left; exact Hc | right; lia].
Qed.

(** The randomized escape draws twice per retry and leaves the best-known
    result and the trial history alone. *)
Lemma randomize_retries_facts consts csz :
  forall retry_count st b st',
  randomize_retries W retry_count consts csz st = (b, st') ->
  bookkeeping_kept st st' /\
  trials st' = trials st /\
  (random_draws st <= random_draws st' <= random_draws st + 2 * retry_count)%nat.
Proof.
  induction retry_count as [|n IH]; intros st b st' H; simpl in H.
  - injection H as <- <-. split; [apply bookkeeping_kept_refl|]. split; [reflexivity|lia].
  - unfold random_index, get_random_uint in H.
    destruct (consts !! _) as [random_fd|] in H.
    2:{ injection H as <- <-. simpl. split; [repeat split|]. split; [reflexivity|lia]. }
    unfold get_random in H.
    destruct (negb _) in H.
    + destruct (is_sat W _) in H.
      * injection H as <- <-. simpl. split; [repeat split|]. split; [reflexivity|lia].
      * apply IH in H as (Hk & Ht & Hr). simpl in *.
        split; [exact Hk|]. split; [exact Ht|lia].
    + apply IH in H as (Hk & Ht & Hr). simpl in *.
      split; [exact Hk|]. split; [exact Ht|lia].
Qed.

End ScanFacts.

(** ** Saving the best-known result *)

Section SaveFacts.

Variable W : collaborators.

Lemma save_model_merge_Some obj_mdl :
  forall mdl mdl',
  save_model_merge obj_mdl mdl = Some mdl' ->
  mdl' = mdl ∪ list_to_map obj_mdl /\
  (forall fd val v, (fd, val) ∈ obj_mdl -> mdl !! fd = Some v -> v = val).
Proof.
  induction obj_mdl as [|[fd val] rest IH]; intros mdl mdl' H; simpl in H.
  - injection H as <-. split.
    + simpl. rewrite (right_id_L ∅ (∪)). reflexivity.
    + intros fd val v Hin. inversion Hin.
  - destruct (mdl !! fd) as [v|] eqn:E.
    + destruct (Z.eqb_spec v val) as [->|]; [|discriminate].
      apply IH in H as [-> Hag]. split.
      * apply map_eq. intros k. simpl.
        rewrite !lookup_union, lookup_insert.
        destruct (decide (fd = k)) as [<-|]; [|reflexivity].
        rewrite E. simpl. destruct (list_to_map rest !! fd); reflexivity.
      * intros fd' val' v' Hin Hl. apply elem_of_cons in Hin as [[= -> ->]|Hin].
        -- congruence.
        -- eapply Hag; eassumption.
    + apply IH in H as [-> Hag]. split.
      * apply map_eq. intros k. simpl.
        rewrite !lookup_union, !lookup_insert.
        destruct (decide (fd = k)) as [<-|]; [|reflexivity].
        rewrite E. simpl. destruct (list_to_map rest !! fd); reflexivity.
      * intros fd' val' v' Hin Hl. apply elem_of_cons in Hin as [[= -> ->]|Hin].
        -- congruence.
        -- apply (Hag fd' val' v' Hin).
           rewrite lookup_insert. destruct (decide (fd = fd')); congruence.
Qed.

Lemma save_model_merge_agree obj_mdl :
  forall mdl,
  NoDup obj_mdl.*1 ->
  (forall fd val v, (fd, val) ∈ obj_mdl -> mdl !! fd = Some v -> v = val) ->
  is_Some (save_model_merge obj_mdl mdl).
Proof.
  induction obj_mdl as [|[fd val] rest IH]; intros mdl Hnd Hag; simpl.
  - eexists. reflexivity.
  - simpl in Hnd. apply NoDup_cons in Hnd as [Hni Hnd].
    destruct (mdl !! fd) as [v|] eqn:E.
    + rewrite (Hag fd val v) by (try apply elem_of_cons; auto).
      rewrite Z.eqb_refl. apply IH; [exact Hnd|].
      intros fd' val' v' Hin. apply Hag. apply elem_of_cons. auto.
    + apply IH; [exact Hnd|].
      intros fd' val' v' Hin Hl. rewrite lookup_insert in Hl.
      destruct (decide (fd = fd')) as [<-|].
      * exfalso. apply Hni. apply list_elem_of_fmap. exists (fd, val'). auto.
      * apply (Hag fd' val' v'); [apply elem_of_cons; auto | exact Hl].
Qed.

(** [save_model] passes its assertion exactly when the Hard Tracker's and
    the Objective Tracker's models agree, and then stores the Hard
    Tracker's model extended by the interpretations only the objective
    model has. *)
Lemma save_model_spec score st :
  (models_agree (m_tracker st) (values (m_obj_tracker st)) ->
   save_model score st =
     Some (with_best st (m_tracker st ∪ values (m_obj_tracker st)) score)) /\
  (forall st', save_model score st = Some st' ->
               models_agree (m_tracker st) (values (m_obj_tracker st))).
Proof.
  unfold save_model, get_model. split.
  - intros Hag.
    destruct (save_model_merge_agree (map_to_list (values (m_obj_tracker st)))
                (m_tracker st)) as [mdl' Hs].
    + apply NoDup_fst_map_to_list.
    + intros fd val v Hin Hl. apply elem_of_map_to_list in Hin.
      eapply Hag; eassumption.
    + rewrite Hs. apply save_model_merge_Some in Hs as [-> _].
      rewrite list_to_map_to_list. reflexivity.
  - intros st' H.
    destruct (save_model_merge _ _) as [mdl'|] eqn:Hs; [|discriminate].
    apply save_model_merge_Some in Hs as [_ Hag].
    intros fd a b Ha Hb. apply (Hag fd b a); [|exact Ha].
    apply elem_of_map_to_list. exact Hb.
Qed.

Lemma save_model_Some score st st' :
  save_model score st = Some st' ->
  st' = with_best st (m_tracker st ∪ values (m_obj_tracker st)) score.
Proof.
  intros H. pose proof (save_model_spec score st) as [H1 H2].
  rewrite (H1 (H2 _ H)) in H. congruence.
Qed.

(** After the setup of [maximize] the two trackers agree. *)
Lemma setup_objective_agree objective st :
  models_agree (m_tracker (setup_objective W objective st))
               (values (m_obj_tracker (setup_objective W objective st))).
Proof.
  unfold setup_objective, set_model, get_model. simpl.
  intros fd a b Ha Hb. rewrite map_lookup_imap in Hb.
  rewrite Ha in Hb.
  destruct (list_to_map _ !! fd) as [v|] in Hb; simpl in Hb; congruence.
Qed.

End SaveFacts.

(** ** The loop of [maximize] *)

Section LoopFacts.

Variable W : collaborators.

(** The condition of the loop only reads the stopwatch. *)
Lemma loop_condition_facts score max_score st :
  let st' := (loop_condition W score max_score st).2 in
  m_tracker st' = m_tracker st /\ m_obj_tracker st' = m_obj_tracker st /\
  m_best_model st' = m_best_model st /\
  m_best_model_score st' = m_best_model_score st /\
  m_moves st' = m_moves st /\ trials st' = trials st /\
  random_draws st' = random_draws st.
Proof.
  unfold loop_condition, get_current_seconds. simpl.
  repeat match goal with |- context [if ?b then _ else _] => destruct b end;
    simpl; repeat split.
Qed.

(** How the body of the loop treats the best-known result. Whenever it
    writes it, the stored score strictly grows. *)
Lemma loop_body_facts consts score max_score l st :
  match loop_body W consts score max_score l st with
  | Continue _ _ st' | Bailout _ st' =>
      m_moves st' = S (m_moves st) /\
      ((m_best_model st' = m_best_model st /\
        m_best_model_score st' = m_best_model_score st) \/
       (m_best_model_score st < score /\ m_best_model_score st' = score))
  | IterationViolation => m_best_model_score st < score
  | IterationCanceled => cancel_requested W (m_moves st) = true
  end.
Proof.
  unfold loop_body.
  destruct (cancel_requested W (m_moves st)); [reflexivity|].
  destruct (find_best_move W consts 0 (set_best_const l UINT_MAX) max_score
              (with_moves st (S (m_moves st)))) as [[inner l1] st1] eqn:Ef.
  apply find_best_move_facts in Ef as (_ & Hk & _ & _ & Hc).
  destruct Hk as (Hbm & Hbs & Hmv & _). simpl in Hbm, Hbs, Hmv, Hc.
  destruct (N.eqb_spec (best_const l1) UINT_MAX) as [He|Hne].
  - destruct (Z.gtb_spec score (m_best_model_score st1)) as [Hgt|Hle].
    + destruct (save_model score st1) as [st2|] eqn:Es; [|lia].
      apply save_model_Some in Es.
      unfold randomize_wrt_hard.
      destruct (randomize_retries W _ _ _ st2) as [b st3] eqn:Er.
      apply randomize_retries_facts in Er as ((Hbm' & Hbs' & Hmv' & _) & _).
      subst st2. simpl in *.
      destruct b; simpl; (split; [congruence|]); right; split; lia.
    + unfold randomize_wrt_hard.
      destruct (randomize_retries W _ _ _ st1) as [b st3] eqn:Er.
      apply randomize_retries_facts in Er as ((Hbm' & Hbs' & Hmv' & _) & _).
      destruct b; simpl; (split; [congruence|]); left; split; congruence.
  - destruct Hc as [Hc|Hc]; [contradiction|].
    destruct (consts !! N.to_nat (best_const l1)) as [fd|] eqn:El.
    + unfold incremental_score. simpl.
      split; [congruence|]. left. split; congruence.
    + apply lookup_ge_None in El. lia.
Qed.

(** While the outer [score] does not exceed the stored best score, the
    loop never writes the best-known result, and it never trips the
    assertion of [save_model]. *)
Lemma maximize_loop_keeps_best consts score max_score :
  forall fuel l st,
  score <= m_best_model_score st ->
  match maximize_loop W fuel consts score max_score l st with
  | Done st' => m_best_model st' = m_best_model st /\
                m_best_model_score st' = m_best_model_score st
  | AssertionViolation => False
  | Canceled | OutOfFuel => True
  end.
Proof.
  induction fuel as [|fuel IH]; intros l st Hle; simpl; [exact I|].
  pose proof (loop_condition_facts score max_score st) as (_ & _ & Hbm & Hbs & _).
  destruct (loop_condition W score max_score st) as [go st1]. simpl in Hbm, Hbs.
  destruct go; [|split; assumption].
  pose proof (loop_body_facts consts score max_score l st1) as Hb.
  destruct (loop_body W consts score max_score l st1) as [inner l2 st2|l2 st2| |].
  - destruct Hb as (_ & [[Hm Hs]|[Hlt _]]); [|lia].
    specialize (IH l2 st2). 
    destruct (maximize_loop W fuel consts score max_score l2 st2); try exact I.
    + destruct IH as [IH1 IH2]; [lia|]. split; congruence.
    + apply IH. lia.
  - destruct Hb as (_ & [[Hm Hs]|[Hlt _]]); [|lia]. split; congruence.
  - lia.
  - exact I.
Qed.

(** Across any number of iterations the stored best score never
    decreases, and the stored pair changes only with a strictly greater
    score. *)
Lemma maximize_loop_monotone consts score max_score :
  forall fuel l st st',
  maximize_loop W fuel consts score max_score l st = Done st' ->
  m_best_model_score st <= m_best_model_score st' /\
  (m_best_model_score st' = m_best_model_score st ->
   m_best_model st' = m_best_model st).
Proof.
  induction fuel as [|fuel IH]; intros l st st' H; simpl in H; [discriminate|].
  pose proof (loop_condition_facts score max_score st) as (_ & _ & Hbm & Hbs & _).
  destruct (loop_condition W score max_score st) as [go st1]. simpl in Hbm, Hbs.
  destruct go.
  2:{ injection H as <-. split; [lia|]. intros _. exact Hbm. }
  pose proof (loop_body_facts consts score max_score l st1) as Hb.
  destruct (loop_body W consts score max_score l st1) as [inner l2 st2|l2 st2| |];
    try discriminate.
  - apply IH in H as [H1 H2]. destruct Hb as (_ & [[Hm Hs]|[Hlt Hs]]).
    + split; [lia|]. intros He. rewrite H2 by lia. congruence.
    + split; [lia|]. intros He. lia.
  - injection H as <-. destruct Hb as (_ & [[Hm Hs]|[Hlt Hs]]).
    + split; [lia|]. intros _. congruence.
    + split; [lia|]. intros He. lia.
Qed.

(** The body of the loop never reads the stopwatch. *)
Lemma loop_body_stopwatch consts score max_score l st :
  match loop_body W consts score max_score l st with
  | Continue _ _ st' | Bailout _ st' => stopwatch_reads st' = stopwatch_reads st
  | IterationViolation | IterationCanceled => True
  end.
Proof.
  unfold loop_body.
  destruct (cancel_requested W (m_moves st)); [exact I|].
  destruct (find_best_move W consts 0 (set_best_const l UINT_MAX) max_score
              (with_moves st (S (m_moves st)))) as [[inner l1] st1] eqn:Ef.
  apply find_best_move_facts in Ef as (_ & Hk & _).
  destruct Hk as (_ & _ & _ & Hsw & _). simpl in Hsw.
  destruct (best_const l1 =? UINT_MAX)%N.
  - destruct (score >? m_best_model_score st1).
    + destruct (save_model score st1) as [st2|] eqn:Es; [|exact I].
      apply save_model_Some in Es.
      unfold randomize_wrt_hard.
      destruct (randomize_retries W _ _ _ st2) as [b st3] eqn:Er.
      apply randomize_retries_facts in Er as ((_ & _ & _ & Hsw' & _) & _).
      subst st2. simpl in Hsw'. destruct b; simpl; congruence.
    + unfold randomize_wrt_hard.
      destruct (randomize_retries W _ _ _ st1) as [b st3] eqn:Er.
      apply randomize_retries_facts in Er as ((_ & _ & _ & Hsw' & _) & _).
      destruct b; simpl; congruence.
  - destruct (consts !! N.to_nat (best_const l1)) as [fd|]; [|exact I].
    unfold incremental_score. simpl. exact Hsw.
Qed.

(** When the condition of the loop holds, the stopwatch was read twice and
    the second reading was below the time budget. *)
Lemma loop_condition_reads score max_score st :
  (loop_condition W score max_score st).1 = true ->
  stopwatch_reads (loop_condition W score max_score st).2
    = S (S (stopwatch_reads st)) /\
  Qle_bool (TIMELIMIT (cfg W)) (stopwatch W (S (stopwatch_reads st))) = false.
Proof.
  unfold loop_condition, get_current_seconds. simpl.
  destruct (check_restart W _); simpl; [|discriminate].
  destruct (Qle_bool _ _); simpl; [discriminate|].
  intros _. split; reflexivity.
Qed.

(** Termination: once every reading of the stopwatch from the [n]-th on is
    at or beyond the time budget, the loop ends within the passes that
    reach that reading. *)
Lemma maximize_loop_halts consts score max_score (n : nat) :
  (forall m, (n <= m)%nat ->
             Qle_bool (TIMELIMIT (cfg W)) (stopwatch W m) = true) ->
  forall fuel l st,
  (n <= S (stopwatch_reads st) + 2 * fuel)%nat ->
  maximize_loop W (S fuel) consts score max_score l st <> OutOfFuel.
Proof.
  intros Hclock. induction fuel as [|fuel IH]; intros l st Hn.
  - cbn [maximize_loop].
    pose proof (loop_condition_reads score max_score st) as Hr.
    destruct (loop_condition W score max_score st) as [go st1].
    destruct go; [|discriminate].
    destruct (Hr eq_refl) as [_ Hlt]. rewrite Hclock in Hlt by lia. discriminate.
  - remember (S fuel) as f eqn:Hf. cbn [maximize_loop].
    pose proof (loop_condition_reads score max_score st) as Hr.
    destruct (loop_condition W score max_score st) as [go st1].
    destruct go; [|discriminate].
    destruct (Hr eq_refl) as [Hreads _]. simpl in Hreads.
    pose proof (loop_body_stopwatch consts score max_score l st1) as Hb.
    destruct (loop_body W consts score max_score l st1) as [inner l2 st2|l2 st2| |];
      try discriminate.
    subst f. apply IH. lia.
Qed.

End LoopFacts.

(** ** Objective values *)

Section ExprFacts.

Variable get_range : positive -> sort.

Lemma eval_range vals e :
  0 <= eval get_range vals e < m_powers (get_bv_size get_range e).
Proof.
  destruct e; simpl; apply Z.mod_pos_bound, m_powers_pos.
Qed.

(** The value of an expression depends on its constants only. *)
Lemma eval_ext vals1 vals2 e :
  (forall fd, fd ∈ expr_constants e -> get_value vals1 fd = get_value vals2 fd) ->
  eval get_range vals1 e = eval get_range vals2 e.
Proof.
  induction e as [fd|v sz|e IH|e IH|e1 IH1 e2 IH2|e1 IH1 e2 IH2
                  |e1 IH1 e2 IH2|e1 IH1 e2 IH2]; simpl; intros H.
  - rewrite (H fd) by (apply list_elem_of_singleton; reflexivity). reflexivity.
  - reflexivity.
  - rewrite IH by exact H. reflexivity.
  - rewrite IH by exact H. reflexivity.
  - rewrite IH1, IH2; [reflexivity| |];
      intros fd Hin; apply H, elem_of_app; auto.
  - rewrite IH1, IH2; [reflexivity| |];
      intros fd Hin; apply H, elem_of_app; auto.
  - rewrite IH1, IH2; [reflexivity| |];
      intros fd Hin; apply H, elem_of_app; auto.
  - rewrite IH1, IH2; [reflexivity| |];
      intros fd Hin; apply H, elem_of_app; auto.
Qed.

End ExprFacts.

Section MaximizeFacts.

Variable W : collaborators.

(** After the setup every constant of the objective is followed by the
    Objective Tracker. *)
Lemma setup_objective_tracks objective st fd :
  fd ∈ expr_constants objective ->
  is_Some (values (m_obj_tracker (setup_objective W objective st)) !! fd).
Proof.
  intros Hin. unfold setup_objective, set_model, tracker_initialize. simpl.
  rewrite map_lookup_imap.
  erewrite elem_of_list_to_map_1.
  - simpl. eexists. reflexivity.
  - rewrite <- list_fmap_compose. simpl.
    rewrite list_fmap_id. apply NoDup_remove_dups.
  - apply list_elem_of_fmap. exists fd. split; [reflexivity|].
    apply elem_of_remove_dups. rewrite app_nil_r. exact Hin.
Qed.

(** The model stored by the first save gives the objective the value the
    Objective Tracker gives it. *)
Lemma eval_saved_model objective st e :
  (forall fd, fd ∈ expr_constants e -> fd ∈ expr_constants objective) ->
  let st1 := setup_objective W objective st in
  eval (get_range W) (m_tracker st1 ∪ values (m_obj_tracker st1)) e =
  eval (get_range W) (values (m_obj_tracker st1)) e.
Proof.
  intros Hsub st1. apply eval_ext. intros fd Hin.
  destruct (setup_objective_tracks objective st fd (Hsub fd Hin)) as [b Hb].
  fold st1 in Hb. unfold get_value. rewrite lookup_union, Hb.
  destruct (m_tracker st1 !! fd) as [a|] eqn:Ha; simpl; [|reflexivity].
  exact (setup_objective_agree W objective st fd a b Ha Hb).
Qed.

(** What [maximize] returns: the score of the first save, and with it the
    model of the first save. *)
Lemma maximize_Done fuel objective st r st' :
  maximize W fuel objective st = Done (r, st') ->
  let st1 := setup_objective W objective st in
  let score := eval (get_range W) (values (m_obj_tracker st1)) objective in
  r = ENum score (get_bv_size (get_range W) objective) /\
  m_best_model_score st' = score /\
  m_best_model st' = m_tracker st1 ∪ values (m_obj_tracker st1).
Proof.
  intros H st1 score. unfold maximize in H. fold st1 in H. fold score in H.
  destruct (negb (is_sat W (m_tracker st))); [discriminate|].
  destruct (save_model score st1) as [st2|] eqn:Es; [|discriminate].
  apply save_model_Some in Es.
  pose proof (maximize_loop_keeps_best W (constants (m_obj_tracker st1)) score
                (m_powers (get_bv_size (get_range W) objective) - 1)
                fuel initial_move_vars st2) as Hl.
  destruct (maximize_loop W fuel _ score _ initial_move_vars st2) as [st3| | |];
    try discriminate.
  injection H as <- <-.
  destruct Hl as [Hm Hs]; [subst st2; simpl; lia|].
  subst st2. simpl in Hm, Hs.
  split; [|split; assumption].
  unfold mk_numeral. rewrite Hs. f_equal.
  apply Z.mod_small. apply eval_range.
Qed.

End MaximizeFacts.

(** * The claims *)

(** ** C1: minimize and the negation law *)

(** C1, as stated, fails: for the three-bit constant [x] with current value
    1 and no assertions, [minimize x] returns 7, which is what [maximize]
    returns on [-x]; it is neither the negation 1 of that value modulo 8 nor
    the minimum 0 of [x]. *)
Lemma minimize_negation_law_counterexample :
  exists a b,
    optimum_of (minimize (free_world 3) 10 x_obj (x_engine 1)) = Some (ENum a 3) /\
    optimum_of (maximize (free_world 3) 10 (mk_bv_neg x_obj) (x_engine 1))
      = Some (ENum b 3) /\
    a <> (- b) mod 2 ^ 3 /\ a <> 0.
Proof.
  exists 7, 7. split; [vm_compute; reflexivity|].
  split; [vm_compute; reflexivity|]. split; [vm_compute; discriminate | lia].
Qed.

(** C1, amended: [minimize e] is [maximize] on the negated objective, with
    no negation back. What it returns is the numeral, of the width of [e],
    of the negation modulo [2^w] of the value [e] has under the best-known
    model the call stored. And it does return (or is canceled, or stops on a
    violated contract) once the stopwatch passes the time budget. *)
Theorem minimize_is_maximize_of_negation (W : collaborators) (fuel : nat)
    (e : expr) (st : engine) :
  minimize W fuel e st = maximize W fuel (mk_bv_neg e) st /\
  (forall r st', minimize W fuel e st = Done (r, st') ->
    let w := get_bv_size (get_range W) e in
    exists v, r = ENum v w /\ 0 <= v < m_powers w /\
              v = (- eval (get_range W) (m_best_model st') e) mod m_powers w) /\
  (forall n,
    (forall m, (n <= m)%nat ->
               Qle_bool (TIMELIMIT (cfg W)) (stopwatch W m) = true) ->
    (n <= S (stopwatch_reads st) + 2 * fuel)%nat ->
    minimize W (S fuel) e st <> OutOfFuel).
Proof.
  split; [reflexivity|]. split.
  2:{ intros n Hclock Hn. unfold minimize, maximize.
      destruct (negb _); [discriminate|].
      destruct (save_model _ _) as [st2|] eqn:Es; [|discriminate].
      apply save_model_Some in Es.
      pose proof (maximize_loop_halts W
        (constants (m_obj_tracker (setup_objective W (mk_bv_neg e) st)))
        (eval (get_range W)
           (values (m_obj_tracker (setup_objective W (mk_bv_neg e) st)))
           (mk_bv_neg e))
        (m_powers (get_bv_size (get_range W) (mk_bv_neg e)) - 1)
        n Hclock fuel initial_move_vars st2) as Hh.
      destruct (maximize_loop W (S fuel) _ _ _ initial_move_vars st2);
        try discriminate.
      intros _. apply Hh; [|reflexivity]. subst st2. simpl. exact Hn. }
  intros r st' H w. unfold minimize in H.
  apply maximize_Done in H as (Hr & _ & Hm).
  eexists. split; [exact Hr|]. split.
  - apply (eval_range (get_range W) _ (EBvNeg e)).
  - rewrite Hm.
    rewrite (eval_saved_model W (mk_bv_neg e) st e) by (intros fd Hfd; exact Hfd).
    reflexivity.
Qed.

Lemma minimize_is_maximize_of_negation_witness :
  (exists v, ENum 7 3 = ENum v 3 /\ 0 <= v < m_powers 3 /\
    v = (- eval (get_range (free_world 3))
             (m_best_model
                (engine_after (minimize (free_world 3) 10 x_obj (x_engine 1))
                   (x_engine 1)))
             x_obj) mod m_powers 3) /\
  minimize (free_world 3) 11 x_obj (x_engine 1) <> OutOfFuel.
Proof.
  pose proof (minimize_is_maximize_of_negation (free_world 3) 10 x_obj (x_engine 1))
    as (_ & Hvalue & Hhalts).
  split.
  - apply Hvalue. vm_compute. reflexivity.
  - apply (Hhalts 6%nat).
    + intros m Hm. apply Qle_bool_iff. unfold Qle. simpl. lia.
    + simpl. lia.
Defined.

(** ** C2: when the loop of [maximize] goes on *)

(** C2 on the code: the three-bit constant [x] starts at 0 with no
    assertions and the objective is [x]. The first pass through the body
    commits [x := 7], and the score it computes is [7 = 2^3 - 1]; this
    score goes to the variable declared inside the body, so the condition
    of the loop, which reads the variable declared before the loop (still
    0), holds again and a second pass begins. With the budget of six
    seconds the loop makes three passes, and [maximize] returns 0. *)
Theorem loop_goes_on_at_maximum_score :
  save_model 0 (setup_objective (free_world 3) x_obj (x_engine 0)) = Some x_at_loop /\
  (exists l1 st1,
     loop_body (free_world 3) [1%positive] 0 7 initial_move_vars x_at_loop
       = Continue 7 l1 st1 /\
     top_score (free_world 3) st1 = 7 /\
     get_value (m_tracker st1) 1 = 7 /\
     (loop_condition (free_world 3) 0 7 st1).1 = true) /\
  optimum_of (maximize (free_world 3) 10 x_obj (x_engine 0)) = Some (ENum 0 3) /\
  m_moves (engine_after (maximize (free_world 3) 10 x_obj (x_engine 0)) (x_engine 0))
    = 3%nat.
Proof.
  split; [vm_compute; reflexivity|]. split.
  - eexists _, (engine_after
                  (match loop_body (free_world 3) [1%positive] 0 7
                           initial_move_vars x_at_loop with
                   | Continue _ _ s => Done (tt, s)
                   | _ => OutOfFuel
                   end) x_at_loop).
    split; [vm_compute; reflexivity|].
    split; [vm_compute; reflexivity|].
    split; vm_compute; reflexivity.
  - split; vm_compute; reflexivity.
Qed.

(** ** C3: what a trial leaves applied *)

(** C3, as stated, fails: after [what_if] has tried [x := 5] on the
    three-bit constant [x = 0], the Hard Tracker holds 5, not the prior 0;
    and after a whole scan by [find_best_move] the Objective Tracker still
    holds the last trial value 7 of [x], which was not committed. *)
Lemma what_if_restores_counterexample :
  let st := setup_objective (free_world 3) x_obj (x_engine 0) in
  get_value (m_tracker st) 1 = 0 /\
  get_value (m_tracker (what_if (free_world 3) 1 0 5 initial_move_vars st).2) 1 = 5 /\
  get_value
    (values (m_obj_tracker
       (find_best_move (free_world 3) [1%positive] 0 initial_move_vars 7 st).2)) 1
    = 7.
Proof. vm_compute. repeat split. Qed.

(** C3, amended: [what_if] does not restore anything; it leaves the trial
    value in the Hard Tracker. The trials of a scan all write the constant
    under scan, and [find_best_move] puts the value the constant had before
    its scan back into the Hard Tracker after the constant's last trial: the
    Hard Tracker's assignment after scanning a constant, and after
    [find_best_move], is the one before. *)
Theorem find_best_move_restores_hard_tracker (W : collaborators) :
  (forall fd i temp l st,
      m_tracker (what_if W fd i temp l st).2 = set_value fd temp (m_tracker st)) /\
  (forall fd i max_score l st,
      m_tracker (scan_constant W fd i max_score l st).2 = m_tracker st) /\
  (forall to_evaluate score l max_score st,
      m_tracker (find_best_move W to_evaluate score l max_score st).2 = m_tracker st).
Proof.
  split; [apply what_if_hard_tracker|]. split.
  - intros fd i max_score l st.
    destruct (scan_constant W fd i max_score l st) as [l' st'] eqn:E.
    apply scan_constant_facts in E as (H & _). exact H.
  - intros to_evaluate score l max_score st.
    destruct (find_best_move W to_evaluate score l max_score st) as [[s l'] st'] eqn:E.
    apply find_best_move_facts in E as (H & _). exact H.
Qed.

(** ** C4: what the best-move search reports *)

(** C4 on the code: two two-bit constants [x] and [y] are both 0, there are
    no assertions, and the objective is [x & y], whose current value is 0.
    Whatever single constant is moved to whatever value, the objective
    stays 0: no candidate improves. The search nevertheless reports the
    move [y := 3] with score 3: the trials of [y] are scored in an
    Objective Tracker that still holds the last trial value 3 of [x], while
    the Hard Tracker is back at [x = 0]. *)
Theorem find_best_move_reports_stale_improvement :
  m_tracker xy_engine = values (m_obj_tracker xy_engine) /\
  top_score (free_world 2) xy_engine = 0 /\
  (forall fd v,
      eval (get_range (free_world 2)) (set_value fd v (m_tracker xy_engine)) xy_obj = 0) /\
  let '(new_score, l, st) :=
    find_best_move (free_world 2) [1%positive; 2%positive] 0 initial_move_vars 3
      xy_engine in
  new_score = 3 /\ best_const l = 1%N /\ best_value l = 3 /\
  get_value (m_tracker st) 1 = 0 /\
  get_value (values (m_obj_tracker st)) 1 = 3.
Proof.
  split; [vm_compute; reflexivity|]. split; [vm_compute; reflexivity|]. split.
  - intros fd v. cbn [eval xy_obj get_bv_size get_range free_world].
    rewrite !get_value_set_value.
    change (m_tracker xy_engine) with (<[1%positive := 0]> ({[2%positive := 0]} : gmap positive Z)).
    set (M := <[1%positive := 0]> ({[2%positive := 0]} : gmap positive Z)).
    assert (G1 : get_value M 1 = 0) by reflexivity.
    assert (G2 : get_value M 2 = 0) by reflexivity.
    assert (Z0 : 0 mod m_powers 2 = 0) by reflexivity.
    destruct (decide (fd = 1%positive)) as [E1|H1];
      destruct (decide (fd = 2%positive)) as [E2|H2]; try congruence.
    + rewrite G2, Z0, Z.land_0_r. reflexivity.
    + rewrite G1, Z0, Z.land_0_l. reflexivity.
    + rewrite G1, Z0, Z.land_0_l. reflexivity.
  - vm_compute. repeat split.
Qed.

(** ** C5: the retries of the randomized escape *)

(** C5, as stated, fails: among three constants the index is drawn from
    four random bits, a range of 16 values, where the next power of two
    from 3 is 4; and the draw is then reduced modulo the count. With the
    raw random number 5 the code selects index [5 mod 16 mod 3 = 2], where a
    range of 4 would give [5 mod 4 mod 3 = 1]. *)
Lemma random_index_range_counterexample :
  m_powers (random_bits 3) = 16 /\ next_power_of_two 3 = 4 /\
  (random_index (free_world 3) 3
     (with_random_draws (x_engine 0) 5)).1 = 2 /\
  (5 mod next_power_of_two 3) mod 3 = 1.
Proof. vm_compute. repeat split. Qed.

Lemma random_bits_cases (csz : Z) :
  random_bits csz =
    if csz <? 16 then 4%nat else if csz <? 256 then 8%nat
    else if csz <? 4096 then 12%nat else if csz <? 65536 then 16%nat else 32%nat.
Proof. reflexivity. Qed.

(** C5, amended: the randomized escape makes at most as many retries as
    there are objective-relevant constants, each retry drawing one index and
    one value. The index is a random number of [b] bits reduced modulo the
    count [N] of constants, with [b] = 4, 8, 12, 16 for [N] below 16, 256,
    4096, 65536 and 32 otherwise; so the index is below [N], and the range
    [2^b] of the draw exceeds every count that fits an unsigned. *)
Theorem randomized_escape_retries (W : collaborators) (st : engine) :
  (random_draws (randomize_wrt_hard W st).2
     <= random_draws st + 2 * length (constants (m_obj_tracker st)))%nat /\
  (forall csz s, 0 < csz ->
     (random_index W csz s).1 =
       (random_source W (random_draws s) mod 2 ^ Z.of_nat (random_bits csz)) mod csz /\
     0 <= (random_index W csz s).1 < csz /\
     random_draws (random_index W csz s).2 = S (random_draws s)) /\
  (forall csz, 0 <= csz < 2 ^ 32 ->
     random_bits csz ∈ [4; 8; 12; 16; 32]%nat /\
     csz < 2 ^ Z.of_nat (random_bits csz)).
Proof.
  split; [|split].
  - unfold randomize_wrt_hard.
    destruct (randomize_retries W _ _ _ st) as [b st'] eqn:E.
    apply randomize_retries_facts in E as (_ & _ & H). simpl. lia.
  - intros csz s Hc. unfold random_index, get_random_uint. simpl.
    split; [reflexivity|]. split; [|reflexivity].
    apply Z.mod_pos_bound. exact Hc.
  - intros csz Hc. rewrite random_bits_cases.
    destruct (Z.ltb_spec csz 16); [split; [apply list_elem_of_In; simpl; tauto|simpl; lia]|].
    destruct (Z.ltb_spec csz 256); [split; [apply list_elem_of_In; simpl; tauto|simpl; lia]|].
    destruct (Z.ltb_spec csz 4096); [split; [apply list_elem_of_In; simpl; tauto|simpl; lia]|].
    destruct (Z.ltb_spec csz 65536); [split; [apply list_elem_of_In; simpl; tauto|simpl; lia]|].
    split; [apply list_elem_of_In; simpl; tauto|simpl; lia].
Qed.

Lemma randomized_escape_retries_witness :
  (random_index (free_world 3) 3 (x_engine 0)).1 =
       (random_source (free_world 3) (random_draws (x_engine 0))
          mod 2 ^ Z.of_nat (random_bits 3)) mod 3 /\
  0 <= (random_index (free_world 3) 3 (x_engine 0)).1 < 3 /\
  random_draws (random_index (free_world 3) 3 (x_engine 0)).2
    = S (random_draws (x_engine 0)).
Proof.
  apply (proj1 (proj2 (randomized_escape_retries (free_world 3) (x_engine 0)))).
  lia.
Defined.

(** ** C10: the randomized escape without constants *)

(** C10: with no objective-relevant constant the randomized escape fails at
    once; nothing is drawn and the engine is as before. *)
Theorem randomize_without_constants (W : collaborators) (st : engine) :
  constants (m_obj_tracker st) = [] ->
  randomize_wrt_hard W st = (false, st).
Proof.
  intros H. unfold randomize_wrt_hard. rewrite H. reflexivity.
Qed.

Lemma randomize_without_constants_witness :
  randomize_wrt_hard (free_world 3) (engine_with ∅) = (false, engine_with ∅).
Proof.
  apply randomize_without_constants. reflexivity.
Defined.

(** ** C6: a constant objective *)

(** C6, as stated, fails for [minimize]: on the three-bit numeral 5 it
    returns 3, the negation of 5 modulo 8, and not 5. *)
Lemma minimize_constant_counterexample :
  optimum_of (maximize (free_world 3) 10 (ENum 5 3) (x_engine 0)) = Some (ENum 5 3) /\
  optimum_of (minimize (free_world 3) 10 (ENum 5 3) (x_engine 0)) = Some (ENum 3 3) /\
  ENum 3 3 <> ENum 5 3.
Proof. split; [|split]; [vm_compute; reflexivity ..|discriminate]. Qed.

Lemma setup_closed_objective (W : collaborators) (e : expr) (st : engine) :
  expr_constants e = [] ->
  setup_objective W e st =
  with_obj_tracker st {| top_exprs := [e]; constants := []; values := ∅ |}.
Proof.
  intros H. unfold setup_objective, set_model, tracker_initialize, tracker_with_values.
  simpl. rewrite H. simpl. rewrite map_imap_empty. reflexivity.
Qed.

(** On an objective without constants [maximize] returns the value of the
    objective after at most one pass through its loop, in which no move is
    tried. *)
Lemma maximize_closed_objective (W : collaborators) (fuel : nat) (e : expr)
    (st : engine) :
  expr_constants e = [] ->
  is_sat W (m_tracker st) = true ->
  cancel_requested W (m_moves st) = false ->
  exists st',
    maximize W (S fuel) e st
      = Done (ENum (eval (get_range W) ∅ e) (get_bv_size (get_range W) e), st') /\
    trials st' = trials st /\ m_tracker st' = m_tracker st /\
    (m_moves st' <= S (m_moves st))%nat /\
    m_obj_tracker st' = {| top_exprs := [e]; constants := []; values := ∅ |}.
Proof.
  intros Hc Hsat Hcancel. unfold maximize.
  rewrite Hsat, (setup_closed_objective W e st Hc). simpl negb. cbv iota.
  cbn [m_obj_tracker with_obj_tracker values constants].
  set (k := eval (get_range W) ∅ e).
  set (st1 := with_obj_tracker st _).
  assert (Hs : save_model k st1 = Some (with_best st1 (m_tracker st) k)).
  { unfold save_model, get_model. subst st1. cbn [m_obj_tracker with_obj_tracker values].
    rewrite map_to_list_empty. reflexivity. }
  rewrite Hs. cbn [maximize_loop].
  set (st2 := with_best st1 (m_tracker st) k).
  pose proof (loop_condition_facts W k
                (m_powers (get_bv_size (get_range W) e) - 1) st2)
    as (Ht & Ho & Hbm & Hbs & Hmv & Htr & Hrd).
  destruct (loop_condition W k (m_powers (get_bv_size (get_range W) e) - 1) st2)
    as [go st3].
  cbn [snd] in Ht, Ho, Hbm, Hbs, Hmv, Htr, Hrd.
  assert (Hk : mk_numeral k (get_bv_size (get_range W) e)
               = ENum k (get_bv_size (get_range W) e)).
  { unfold mk_numeral. f_equal. apply Z.mod_small. apply eval_range. }
  destruct go.
  - unfold loop_body. rewrite Hmv. cbn [m_moves with_best with_obj_tracker st2 st1].
    rewrite Hcancel. cbn [find_best_move scan_constants fst snd].
    cbn [best_const set_best_score set_best_const].
    change (UINT_MAX =? UINT_MAX)%N with true. cbv iota.
    cbn [m_best_model_score with_moves]. rewrite Hbs.
    cbn [m_best_model_score with_best st2]. rewrite Z.gtb_ltb, Z.ltb_irrefl.
    unfold randomize_wrt_hard.
    cbn [m_obj_tracker with_moves]. rewrite Ho.
    cbn [m_obj_tracker with_best with_obj_tracker st2 st1 constants length
         randomize_retries negb].
    eexists. split.
    + cbn [m_best_model_score with_moves]. rewrite Hbs.
      cbn [m_best_model_score with_best st2]. rewrite Hk. reflexivity.
    + cbn [trials m_tracker m_moves m_obj_tracker with_moves]. rewrite Htr, Ht, Ho.
      cbn. repeat split. lia.
  - eexists. split.
    + rewrite Hbs. cbn [m_best_model_score with_best st2]. rewrite Hk. reflexivity.
    + rewrite Htr, Ht, Hmv, Ho. cbn. repeat split. lia.
Qed.

(** C6, amended: on a constant objective [k] of [w] bits [maximize]
    returns [k] and [minimize] returns the negation of [k] modulo [2^w]. In
    both no move is tried, the loop is passed at most once, and the Hard
    Tracker's assignment is left as it was; the Objective Tracker is
    initialized anew on the objective ([minimize]: on its negation) and
    then follows no constant, whatever it held before. *)
Theorem constant_objective (W : collaborators) (fuel : nat) (k : Z) (w : nat)
    (st : engine) :
  0 <= k < m_powers w ->
  is_sat W (m_tracker st) = true ->
  cancel_requested W (m_moves st) = false ->
  exists st1 st2,
    maximize W (S fuel) (ENum k w) st = Done (ENum k w, st1) /\
    minimize W (S fuel) (ENum k w) st = Done (ENum ((- k) mod m_powers w) w, st2) /\
    trials st1 = trials st /\ trials st2 = trials st /\
    m_tracker st1 = m_tracker st /\ m_tracker st2 = m_tracker st /\
    (m_moves st1 <= S (m_moves st))%nat /\ (m_moves st2 <= S (m_moves st))%nat /\
    m_obj_tracker st1
      = {| top_exprs := [ENum k w]; constants := []; values := ∅ |} /\
    m_obj_tracker st2
      = {| top_exprs := [mk_bv_neg (ENum k w)]; constants := []; values := ∅ |}.
Proof.
  intros Hk Hsat Hcancel.
  destruct (maximize_closed_objective W fuel (ENum k w) st eq_refl Hsat Hcancel)
    as (st1 & H1 & Ht1 & Hh1 & Hm1 & Ho1).
  destruct (maximize_closed_objective W fuel (mk_bv_neg (ENum k w)) st eq_refl
              Hsat Hcancel) as (st2 & H2 & Ht2 & Hh2 & Hm2 & Ho2).
  exists st1, st2. simpl in H1, H2.
  rewrite (Z.mod_small k (m_powers w)) in H1, H2 by exact Hk.
  unfold minimize. auto 12.
Qed.

Lemma constant_objective_witness :
  exists st1 st2,
    maximize (free_world 3) 10 (ENum 5 3) (obj_engine_6) = Done (ENum 5 3, st1) /\
    minimize (free_world 3) 10 (ENum 5 3) (obj_engine_6)
      = Done (ENum ((- 5) mod m_powers 3) 3, st2) /\
    trials st1 = trials obj_engine_6 /\ trials st2 = trials obj_engine_6 /\
    m_tracker st1 = m_tracker obj_engine_6 /\ m_tracker st2 = m_tracker obj_engine_6 /\
    (m_moves st1 <= S (m_moves obj_engine_6))%nat /\
    (m_moves st2 <= S (m_moves obj_engine_6))%nat /\
    m_obj_tracker st1
      = {| top_exprs := [ENum 5 3]; constants := []; values := ∅ |} /\
    m_obj_tracker st2
      = {| top_exprs := [mk_bv_neg (ENum 5 3)]; constants := []; values := ∅ |}.
Proof.
  apply (constant_objective (free_world 3) 9 5 3 obj_engine_6).
  - unfold m_powers. simpl. lia.
  - reflexivity.
  - reflexivity.
Defined.

(** ** C7: the best-known score never regresses *)

(** C7: after the first save, every pass through the body of the loop of
    [maximize], and with it the whole loop, leaves a best-known score that
    is not smaller; and the stored pair of model and score is overwritten
    only by a strictly greater score. *)
Theorem best_known_score_monotone (W : collaborators) (consts : list positive)
    (score max_score : Z) :
  (forall l st inner l' st',
      loop_body W consts score max_score l st = Continue inner l' st' ->
      best_known_advances st st') /\
  (forall l st l' st',
      loop_body W consts score max_score l st = Bailout l' st' ->
      best_known_advances st st') /\
  (forall fuel l st st',
      maximize_loop W fuel consts score max_score l st = Done st' ->
      best_known_advances st st').
Proof.
  assert (Hbody : forall st st',
    (m_best_model st' = m_best_model st /\
     m_best_model_score st' = m_best_model_score st) \/
    (m_best_model_score st < score /\ m_best_model_score st' = score) ->
    best_known_advances st st').
  { intros st st' [[Hm Hs]|[Hlt Hs]]; split; try lia.
    intros Hne. exfalso. apply Hne. congruence. }
  split; [|split].
  - intros l st inner l' st' H.
    pose proof (loop_body_facts W consts score max_score l st) as Hb.
    rewrite H in Hb. apply Hbody, Hb.
  - intros l st l' st' H.
    pose proof (loop_body_facts W consts score max_score l st) as Hb.
    rewrite H in Hb. apply Hbody, Hb.
  - intros fuel l st st' H.
    apply maximize_loop_monotone in H as [H1 H2]. split; [exact H1|].
    intros Hne. destruct (Z.eq_dec (m_best_model_score st') (m_best_model_score st))
      as [He|He]; [|lia].
    exfalso. apply Hne. rewrite (H2 He), He. reflexivity.
Qed.

Lemma best_known_score_monotone_witness :
  best_known_advances (x_engine 0)
    (engine_of (maximize_loop (free_world 3) 10 [] 5 7 initial_move_vars (x_engine 0))
       (x_engine 0)) /\
  m_best_model_score
    (engine_of (maximize_loop (free_world 3) 10 [] 5 7 initial_move_vars (x_engine 0))
       (x_engine 0)) = 5.
Proof.
  split; [|vm_compute; reflexivity].
  apply (proj2 (proj2 (best_known_score_monotone (free_world 3) [] 5 7))
           10%nat initial_move_vars).
  vm_compute. reflexivity.
Defined.

(** ** C8: agreement of the two models at each save *)

(** C8: [save_model] passes its assertion exactly when the Hard Tracker's
    and the Objective Tracker's models give one value to every constant
    both interpret; the model it stores keeps every interpretation of the
    Hard Tracker's model and takes over the interpretations that only the
    objective model has. Every save [maximize] makes passes the assertion:
    started on a satisfied Hard Tracker, [maximize] never ends in a
    contract violation. *)
Theorem save_points_agree (W : collaborators) :
  (forall score st st', save_model score st = Some st' ->
     models_agree (m_tracker st) (values (m_obj_tracker st)) /\
     m_best_model_score st' = score /\
     (forall fd v, m_tracker st !! fd = Some v -> m_best_model st' !! fd = Some v) /\
     (forall fd v, m_tracker st !! fd = None ->
                   values (m_obj_tracker st) !! fd = Some v ->
                   m_best_model st' !! fd = Some v)) /\
  (forall score st, models_agree (m_tracker st) (values (m_obj_tracker st)) ->
     is_Some (save_model score st)) /\
  (forall fuel objective st, is_sat W (m_tracker st) = true ->
     maximize W fuel objective st <> AssertionViolation).
Proof.
  split; [|split].
  - intros score st st' H.
    pose proof (proj2 (save_model_spec score st) _ H) as Hag.
    apply save_model_Some in H. subst st'. simpl.
    split; [exact Hag|]. split; [reflexivity|]. split.
    + intros fd v Hl. apply lookup_union_Some_l. exact Hl.
    + intros fd v Hn Hl. rewrite lookup_union_r by exact Hn. exact Hl.
  - intros score st Hag. rewrite (proj1 (save_model_spec score st) Hag).
    eexists. reflexivity.
  - intros fuel objective st Hsat. unfold maximize. rewrite Hsat. simpl negb. cbv iota.
    set (st1 := setup_objective W objective st).
    set (score := eval (get_range W) (values (m_obj_tracker st1)) objective).
    rewrite (proj1 (save_model_spec score st1)
               (setup_objective_agree W objective st)).
    pose proof (maximize_loop_keeps_best W (constants (m_obj_tracker st1)) score
                  (m_powers (get_bv_size (get_range W) objective) - 1)
                  fuel initial_move_vars
                  (with_best st1 (m_tracker st1 ∪ values (m_obj_tracker st1)) score))
      as Hl.
    destruct (maximize_loop W fuel _ score _ initial_move_vars _);
      try discriminate.
    intros _. apply Hl. simpl. lia.
Qed.

Lemma save_points_agree_witness :
  maximize (free_world 3) 10 x_obj (x_engine 0) <> AssertionViolation /\
  models_agree (m_tracker (setup_objective (free_world 3) x_obj (x_engine 0)))
    (values (m_obj_tracker (setup_objective (free_world 3) x_obj (x_engine 0)))).
Proof.
  split.
  - apply (proj2 (proj2 (save_points_agree (free_world 3)))). reflexivity.
  - apply (proj1 (save_points_agree (free_world 3)) 0 _ x_at_loop).
    vm_compute. reflexivity.
Defined.

(** ** C9: increment or decrement, by parity *)




(** * Further properties of the engine *)

(** ** What a scan reports *)

Section ReportFacts.

Variable W : collaborators.

Lemma what_if_cases fd i temp l st :
  ((what_if W fd i temp l st).1.1 = false /\ (what_if W fd i temp l st).1.2 = l) \/
  ((what_if W fd i temp l st).1.1 = true /\
   best_score l < best_score (what_if W fd i temp l st).1.2 /\
   best_const (what_if W fd i temp l st).1.2 = i /\
   best_value (what_if W fd i temp l st).1.2 = temp /\
   is_sat W (set_value fd temp (m_tracker st)) = true).
Proof.
  unfold what_if.
  assert (Ht : m_tracker
            (if EARLY_PRUNE (cfg W) then incremental_score_prune W fd temp st
             else incremental_score W fd temp st).2
          = set_value fd temp (m_tracker st)).
  { destruct (EARLY_PRUNE (cfg W)); reflexivity. }
  destruct (if EARLY_PRUNE (cfg W) then incremental_score_prune W fd temp st
            else incremental_score W fd temp st) as [r st1].
  simpl in Ht.
  destruct (Qle_bool 1 r); simpl; [|left; split; reflexivity].
  destruct (is_sat W (m_tracker st1)) eqn:Hsat; simpl; [|left; split; reflexivity].
  destruct (Z.gtb_spec (top_score W (obj_evaluator_update fd temp st1))
              (best_score l)); simpl.
  - right. rewrite <- Ht. repeat split; [lia | exact Hsat].
  - left. split; reflexivity.
Qed.

Variable to_evaluate : list positive.
Variable vals0 : gmap positive Z.
Variable l0 : move_vars.

Lemma what_if_invariant fd i temp l st st0 :
  m_tracker st0 = vals0 -> only_moved fd st0 st ->
  to_evaluate !! N.to_nat i = Some fd ->
  scan_invariant W to_evaluate vals0 l0 l ->
  scan_invariant W to_evaluate vals0 l0 (what_if W fd i temp l st).1.2.
Proof.
  intros H0 Hm Hi HI.
  destruct (what_if_cases fd i temp l st) as [[_ ->]|(_ & Hlt & Hc & Hv & Hsat)];
    [exact HI|].
  right. split.
  - destruct HI as [->|[Hs _]]; lia.
  - exists fd. rewrite Hc, Hv. split; [exact Hi|].
    rewrite <- H0. destruct Hm as [Hm|[v Hm]]; rewrite Hm in Hsat.
    + exact Hsat.
    + rewrite set_value_twice in Hsat. exact Hsat.
Qed.

Lemma set_move_invariant l mv :
  scan_invariant W to_evaluate vals0 l0 l ->
  l <> l0 ->
  scan_invariant W to_evaluate vals0 l0 (set_move l mv).
Proof.
  intros [->|H] Hne; [contradiction|]. right. exact H.
Qed.

Lemma what_if_improved_changes fd i temp l st :
  scan_invariant W to_evaluate vals0 l0 l ->
  (what_if W fd i temp l st).1.1 = true ->
  (what_if W fd i temp l st).1.2 <> l0.
Proof.
  intros HI Hb.
  destruct (what_if_cases fd i temp l st) as [[Hf _]|(_ & Hlt & _)]; [congruence|].
  intros He. rewrite He in Hlt. destruct HI as [->|[Hs _]]; lia.
Qed.

Lemma try_move_invariant fd i mv temp l st l' st' st0 :
  m_tracker st0 = vals0 -> only_moved fd st0 st ->
  to_evaluate !! N.to_nat i = Some fd ->
  scan_invariant W to_evaluate vals0 l0 l ->
  try_move W fd i mv temp l st = (l', st') ->
  scan_invariant W to_evaluate vals0 l0 l' /\ only_moved fd st0 st'.
Proof.
  intros H0 Hm Hi HI H. unfold try_move in H.
  assert (Hm' : only_moved fd st0 (log_trial st fd mv temp)) by exact Hm.
  pose proof (what_if_invariant fd i temp l _ st0 H0 Hm' Hi HI) as HI'.
  pose proof (what_if_improved_changes fd i temp l (log_trial st fd mv temp) HI) as Hch.
  pose proof (what_if_hard_tracker W fd i temp l (log_trial st fd mv temp)) as Ht.
  destruct (what_if W fd i temp l (log_trial st fd mv temp)) as [[b l1] st1].
  simpl in *. injection H as <- <-. split.
  - destruct b; [apply set_move_invariant; auto | exact HI'].
  - eapply only_moved_trans; [exact Hm|]. right. exists temp. exact Ht.
Qed.

Lemma flip_bits_invariant fd i srt old_value max_score st0 :
  m_tracker st0 = vals0 ->
  to_evaluate !! N.to_nat i = Some fd ->
  forall bits l st l' st',
  only_moved fd st0 st ->
  scan_invariant W to_evaluate vals0 l0 l ->
  flip_bits W fd i srt old_value max_score bits l st = (l', st') ->
  scan_invariant W to_evaluate vals0 l0 l' /\ only_moved fd st0 st'.
Proof.
  intros H0 Hi. induction bits as [|j bits IH]; intros l st l' st' Hm HI H;
    simpl in H.
  - injection H as <- <-. auto.
  - destruct (best_score l <? max_score); [|injection H as <- <-; auto].
    set (temp := mk_flip srt old_value j) in *.
    assert (Hm' : only_moved fd st0 (log_trial st fd MV_FLIP temp)) by exact Hm.
    pose proof (what_if_invariant fd i temp l _ st0 H0 Hm' Hi HI) as HI'.
    pose proof (what_if_improved_changes fd i temp l
                  (log_trial st fd MV_FLIP temp) HI) as Hch.
    pose proof (what_if_hard_tracker W fd i temp l (log_trial st fd MV_FLIP temp))
      as Ht.
    destruct (what_if W fd i temp l (log_trial st fd MV_FLIP temp)) as [[b l1] st1].
    simpl in *. apply IH in H; [exact H| |].
    + eapply only_moved_trans; [exact Hm|]. right. exists temp. exact Ht.
    + destruct b; [|exact HI'].
      destruct HI' as [->|HI']; [exfalso; apply Hch; reflexivity|].
      right. exact HI'.
Qed.

Ltac try_move_inv_step st0 H0 Hi :=
  match goal with
  | H : context [try_move W ?fd ?i ?mv ?t ?l ?s],
    HI : scan_invariant W to_evaluate vals0 l0 ?l,
    Hm : only_moved ?fd st0 ?s |- _ =>
      let E := fresh "E" in
      let l1 := fresh "l" in
      let s1 := fresh "s" in
      let HI' := fresh "HI" in
      let Hm' := fresh "Hm" in
      destruct (try_move W fd i mv t l s) as [l1 s1] eqn:E;
      destruct (try_move_invariant fd i mv t l s l1 s1 st0 H0 Hm Hi HI E)
        as [HI' Hm'];
      clear HI Hm E
  end.

Lemma scan_constant_invariant fd i max_score l st l' st' :
  m_tracker st = vals0 ->
  to_evaluate !! N.to_nat i = Some fd ->
  scan_invariant W to_evaluate vals0 l0 l ->
  scan_constant W fd i max_score l st = (l', st') ->
  scan_invariant W to_evaluate vals0 l0 l'.
Proof.
  intros H0 Hi HI H. unfold scan_constant in H.
  destruct (flip_bits W fd i _ _ max_score _ l st) as [l1 st1] eqn:Ef.
  destruct (flip_bits_invariant fd i _ _ max_score st H0 Hi _ _ _ _ _
              (only_moved_refl fd st) HI Ef) as [HI1 Hm1].
  clear HI Ef.
  destruct (is_bv_sort _ && _);
    [destruct (USE_ADDSUB (cfg W)), (negb (Z.even (get_value (m_tracker st) fd))),
       (USE_UNARY_MINUS (cfg W)), (USE_MUL2DIV2 (cfg W)), (USE_MUL3 (cfg W))|];
    repeat try_move_inv_step st H0 Hi;
    unfold incremental_score in H; simpl in H; injection H as <- <-; assumption.
Qed.

Lemma scan_constants_invariant max_score :
  forall rest i l st l' st',
  m_tracker st = vals0 ->
  (forall k fd, rest !! k = Some fd ->
                to_evaluate !! (N.to_nat i + k)%nat = Some fd) ->
  scan_invariant W to_evaluate vals0 l0 l ->
  scan_constants W rest i max_score l st = (l', st') ->
  scan_invariant W to_evaluate vals0 l0 l'.
Proof.
  induction rest as [|fd rest IH]; intros i l st l' st' H0 Hidx HI H; simpl in H.
  - injection H as <- <-. exact HI.
  - destruct (best_score l <? max_score); [|injection H as <- <-; exact HI].
    destruct (scan_constant W fd i max_score l st) as [l1 st1] eqn:E.
    pose proof (scan_constant_facts W fd i max_score l st l1 st1 E) as (Ht & _).
    apply (scan_constant_invariant fd i max_score l st l1 st1 H0) in E;
      [|specialize (Hidx 0%nat fd eq_refl); rewrite Nat.add_0_r in Hidx; exact Hidx
       |exact HI].
    apply (IH (N.succ i) l1 st1 l' st'); [congruence| |exact E|exact H].
    intros k fd' Hk. rewrite N2Nat.inj_succ.
    specialize (Hidx (S k) fd' Hk). rewrite Nat.add_succ_r in Hidx. exact Hidx.
Qed.

End ReportFacts.

(** The by-reference variables after [find_best_move]: untouched up to the
    score they started with, or a reported move. *)
Lemma find_best_move_invariant (W : collaborators) to_evaluate score l max_score st
    new_score l' st' :
  find_best_move W to_evaluate score l max_score st = (new_score, l', st') ->
  new_score = best_score l' /\
  scan_invariant W to_evaluate (m_tracker st) (set_best_score l score) l'.
Proof.
  unfold find_best_move.
  destruct (scan_constants W to_evaluate 0 max_score (set_best_score l score) st)
    as [l1 st1] eqn:E.
  intros [= <- <- <-]. split; [reflexivity|].
  eapply scan_constants_invariant; [reflexivity| |left; reflexivity|exact E].
  intros k fd Hk. exact Hk.
Qed.

(** X1. [find_best_move] either finds nothing, and then hands back the
    score it was given with the by-reference variables as they were, or it
    reports a move: the score returned is strictly greater than the score
    given, [best_const] is the index of a constant of [to_evaluate], and
    the Hard Tracker, with [best_value] given to that constant from the
    assignment it had at the call, is satisfied. *)
Theorem find_best_move_reports_accepted_move (W : collaborators)
    (to_evaluate : list positive) (score max_score : Z) (l l' : move_vars)
    (st st' : engine) (new_score : Z) :
  find_best_move W to_evaluate score l max_score st = (new_score, l', st') ->
  (new_score = score /\ l' = set_best_score l score) \/
  (score < new_score /\ new_score = best_score l' /\
   exists fd, to_evaluate !! N.to_nat (best_const l') = Some fd /\
              is_sat W (set_value fd (best_value l') (m_tracker st)) = true).
Proof.
  intros H. apply find_best_move_invariant in H as [Hs [->|[Hlt Hfd]]].
  - left. split; [exact Hs | reflexivity].
  - right. split; [rewrite Hs; exact Hlt|]. split; [exact Hs | exact Hfd].
Qed.

Lemma find_best_move_reports_accepted_move_witness :
  let st := setup_objective bounded_world x_obj (x_engine 0) in
  let r := find_best_move bounded_world [1%positive] 0 initial_move_vars 7 st in
  (r.1.1 = 0 /\ r.1.2 = set_best_score initial_move_vars 0) \/
  (0 < r.1.1 /\ r.1.1 = best_score r.1.2 /\
   exists fd, [1%positive] !! N.to_nat (best_const r.1.2) = Some fd /\
              is_sat bounded_world (set_value fd (best_value r.1.2) (m_tracker st))
                = true).
Proof.
  intros st r.
  apply (find_best_move_reports_accepted_move bounded_world [1%positive] 0 7
           initial_move_vars r.1.2 st r.2 r.1.1).
  vm_compute. reflexivity.
Defined.

(** ** The randomized escape *)

Section EscapeFacts.

Variable W : collaborators.

Lemma random_index_in_range (consts : list positive) (st : engine) :
  consts <> [] ->
  is_Some (consts !! Z.to_nat (random_index W (Z.of_nat (length consts)) st).1).
Proof.
  intros Hne. apply lookup_lt_is_Some.
  unfold random_index, get_random_uint. simpl.
  assert (0 < Z.of_nat (length consts)) by (destruct consts; simpl; [congruence|lia]).
  pose proof (Z.mod_pos_bound
                (random_source W (random_draws st)
                   mod m_powers (random_bits (Z.of_nat (length consts))))
                (Z.of_nat (length consts)) H).
  lia.
Qed.

(** What the loop of retries leaves, by its answer. *)
Lemma randomize_retries_outcome (consts : list positive) :
  consts <> [] ->
  forall retry_count st b st',
  randomize_retries W retry_count consts (Z.of_nat (length consts)) st = (b, st') ->
  if b then
    exists fd v k,
      fd ∈ consts /\ v <> get_value (m_tracker st) fd /\
      m_tracker st' = set_value fd v (m_tracker st) /\
      values (m_obj_tracker st') = set_value fd v (values (m_obj_tracker st)) /\
      is_sat W (m_tracker st') = true /\
      (1 <= k <= retry_count)%nat /\
      random_draws st' = (random_draws st + 2 * k)%nat
  else
    m_tracker st' = m_tracker st /\ m_obj_tracker st' = m_obj_tracker st /\
    random_draws st' = (random_draws st + 2 * retry_count)%nat.
Proof.
  intros Hne. induction retry_count as [|n IH]; intros st b st' H;
    cbn [randomize_retries] in H.
  - injection H as <- <-. repeat split. simpl. lia.
  - pose proof (random_index_in_range consts st Hne) as [random_fd Hfd].
    assert (Hri : (random_index W (Z.of_nat (length consts)) st).2
                  = with_random_draws st (S (random_draws st))) by reflexivity.
    destruct (random_index W (Z.of_nat (length consts)) st) as [ri st1].
    simpl in Hfd, Hri. subst st1. rewrite Hfd in H.
    unfold get_random in H. cbn [random_draws with_random_draws m_tracker] in H.
    set (random_val := random_source W (S (random_draws st)) mod _) in H.
    set (st2 := with_random_draws _ _) in H.
    destruct (Z.eqb_spec random_val (get_value (m_tracker st) random_fd))
      as [Heq|Hneq]; simpl in H.
    + apply IH in H. destruct b.
      * destruct H as (fd & v & k & Hin & Hv & Ht & Ho & Hs & Hk & Hd).
        exists fd, v, (S k). simpl in *. repeat split; try assumption; lia.
      * destruct H as (Ht & Ho & Hd). simpl in *. repeat split; try assumption; lia.
    + destruct (is_sat W (set_value random_fd random_val (m_tracker st)))
        eqn:Hsat.
      * injection H as <- <-.
        exists random_fd, random_val, 1%nat. simpl.
        split; [eapply list_elem_of_lookup_2; exact Hfd|].
        repeat split; try assumption; try lia.
      * assert (Hback : m_tracker
                  (evaluator_update random_fd (get_value (m_tracker st) random_fd)
                     (evaluator_update random_fd random_val st2)) = m_tracker st).
        { simpl. rewrite set_value_twice. apply set_value_current. }
        apply IH in H. destruct b.
        -- destruct H as (fd & v & k & Hin & Hv & Ht & Ho & Hs & Hk & Hd).
           rewrite Hback in Hv, Ht.
           exists fd, v, (S k). simpl in *. repeat split; try assumption; lia.
        -- destruct H as (Ht & Ho & Hd). rewrite Hback in Ht.
           simpl in *. repeat split; try assumption; lia.
Qed.

End EscapeFacts.



(** X3. The index [ri] that [randomize_wrt_hard] computes is always an
    index of [consts], and every retry draws exactly two random numbers: a
    failed escape among [N >= 1] constants has made [N] retries and [2 N]
    draws, a successful one between 1 and [N] retries. *)
Theorem randomize_wrt_hard_draws (W : collaborators) (st st' : engine) (b : bool) :
  constants (m_obj_tracker st) <> [] ->
  randomize_wrt_hard W st = (b, st') ->
  let n := length (constants (m_obj_tracker st)) in
  (forall s, is_Some (constants (m_obj_tracker st)
                        !! Z.to_nat (random_index W (Z.of_nat n) s).1)) /\
  if b then exists k, (1 <= k <= n)%nat /\
                      random_draws st' = (random_draws st + 2 * k)%nat
  else random_draws st' = (random_draws st + 2 * n)%nat.
Proof.
  intros Hne H n. split.
  - intros s. apply random_index_in_range. exact Hne.
  - unfold randomize_wrt_hard in H. apply randomize_retries_outcome in H; [|exact Hne].
    destruct b.
    + destruct H as (fd & v & k & _ & _ & _ & _ & _ & Hk & Hd). exists k. auto.
    + destruct H as (_ & _ & Hd). exact Hd.
Qed.

Lemma randomize_wrt_hard_draws_witness :
  let st := setup_objective bounded_world x_obj (x_engine 0) in
  (forall s, is_Some (constants (m_obj_tracker st)
                        !! Z.to_nat (random_index bounded_world
                                       (Z.of_nat (length (constants (m_obj_tracker st))))
                                       s).1)) /\
  exists k, (1 <= k <= length (constants (m_obj_tracker st)))%nat /\
            random_draws (randomize_wrt_hard bounded_world st).2
              = (random_draws st + 2 * k)%nat.
Proof.
  intros st.
  apply (randomize_wrt_hard_draws bounded_world st
           (randomize_wrt_hard bounded_world st).2 true).
  - discriminate.
  - vm_compute. reflexivity.
Defined.

(** ** The search keeps the assertions satisfied *)

Section SafetyFacts.

Variable W : collaborators.

Lemma randomize_wrt_hard_tracker st b st' :
  randomize_wrt_hard W st = (b, st') ->
  if b then is_sat W (m_tracker st') = true else m_tracker st' = m_tracker st.
Proof.
  unfold randomize_wrt_hard. intros H.
  destruct (constants (m_obj_tracker st)) as [|c cs] eqn:Hc.
  - simpl in H. injection H as <- <-. reflexivity.
  - rewrite <- Hc in H. apply randomize_retries_outcome in H; [|congruence].
    destruct b.
    + destruct H as (fd & v & k & _ & _ & _ & _ & Hs & _). exact Hs.
    + destruct H as (Ht & _). exact Ht.
Qed.

Lemma loop_body_keeps_sat consts score max_score l st :
  is_sat W (m_tracker st) = true ->
  match loop_body W consts score max_score l st with
  | Continue _ _ st' | Bailout _ st' => is_sat W (m_tracker st') = true
  | IterationViolation | IterationCanceled => True
  end.
Proof.
  intros Hsat. unfold loop_body.
  destruct (cancel_requested W (m_moves st)); [exact I|].
  destruct (find_best_move W consts 0 (set_best_const l UINT_MAX) max_score
              (with_moves st (S (m_moves st)))) as [[inner l1] st1] eqn:Ef.
  pose proof (find_best_move_facts W _ _ _ _ _ _ _ _ Ef) as (Ht & _).
  apply find_best_move_invariant in Ef as [_ HI]. simpl in Ht, HI.
  destruct (N.eqb_spec (best_const l1) UINT_MAX) as [He|Hne].
  - assert (Hr : forall st2, m_tracker st2 = m_tracker st ->
               match (let '(randomized, s) := randomize_wrt_hard W st2 in
                      if negb randomized then Bailout l1 s
                      else Continue (top_score W s) l1 s) with
               | Continue _ _ st' | Bailout _ st' => is_sat W (m_tracker st') = true
               | IterationViolation | IterationCanceled => True
               end).
    { intros st2 H2. destruct (randomize_wrt_hard W st2) as [b s] eqn:Er.
      apply randomize_wrt_hard_tracker in Er. destruct b; simpl; congruence. }
    destruct (score >? m_best_model_score st1).
    + destruct (save_model score st1) as [st2|] eqn:Es; [|exact I].
      apply save_model_Some in Es. apply Hr. subst st2. simpl. exact Ht.
    + apply Hr. exact Ht.
  - destruct HI as [->|[_ (fd & Hfd & Hs)]]; [simpl in Hne; contradiction|].
    rewrite Hfd. unfold incremental_score. simpl. rewrite Ht. exact Hs.
Qed.

Lemma maximize_loop_keeps_sat consts score max_score :
  forall fuel l st st',
  is_sat W (m_tracker st) = true ->
  maximize_loop W fuel consts score max_score l st = Done st' ->
  is_sat W (m_tracker st') = true.
Proof.
  induction fuel as [|fuel IH]; intros l st st' Hsat H; simpl in H; [discriminate|].
  pose proof (loop_condition_facts W score max_score st) as (Ht & _).
  destruct (loop_condition W score max_score st) as [go st1]. simpl in Ht.
  destruct go; [|injection H as <-; congruence].
  pose proof (loop_body_keeps_sat consts score max_score l st1) as Hb.
  rewrite Ht in Hb. specialize (Hb Hsat).
  destruct (loop_body W consts score max_score l st1) as [inner l2 st2|l2 st2| |];
    try discriminate.
  - eapply IH; eassumption.
  - injection H as <-. exact Hb.
Qed.

(** The loop's account of moves against the stopwatch. *)
Lemma maximize_loop_moves consts score max_score (n : nat) :
  (forall m, (n <= m)%nat ->
             Qle_bool (TIMELIMIT (cfg W)) (stopwatch W m) = true) ->
  forall fuel l st st',
  maximize_loop W fuel consts score max_score l st = Done st' ->
  (m_moves st <= m_moves st')%nat /\
  (2 * m_moves st' + stopwatch_reads st
     <= 2 * m_moves st + Nat.max n (stopwatch_reads st))%nat.
Proof.
  intros Hclock. induction fuel as [|fuel IH]; intros l st st' H; simpl in H;
    [discriminate|].
  pose proof (loop_condition_facts W score max_score st) as (_ & _ & _ & _ & Hmv & _).
  pose proof (loop_condition_reads W score max_score st) as Hr.
  destruct (loop_condition W score max_score st) as [go st1]. simpl in Hmv.
  destruct go; [|injection H as <-; lia].
  destruct (Hr eq_refl) as [Hreads Hlt]. simpl in Hreads.
  assert (Hn : (S (stopwatch_reads st) < n)%nat).
  { destruct (Nat.lt_ge_cases (S (stopwatch_reads st)) n) as [|Hge]; [assumption|].
    rewrite (Hclock _ Hge) in Hlt. discriminate. }
  pose proof (loop_body_facts W consts score max_score l st1) as Hb.
  pose proof (loop_body_stopwatch W consts score max_score l st1) as Hs.
  destruct (loop_body W consts score max_score l st1) as [inner l2 st2|l2 st2| |];
    try discriminate.
  - destruct Hb as [Hm2 _]. apply IH in H as [H1 H2]. lia.
  - destruct Hb as [Hm2 _]. injection H as <-. lia.
Qed.

End SafetyFacts.

(** A run of [maximize] up to its loop: the setup and the first save leave
    the Hard Tracker, the move counter and the stopwatch alone. *)
Lemma maximize_unfold (W : collaborators) (fuel : nat) (objective : expr)
    (st : engine) (r : expr) (st' : engine) :
  maximize W fuel objective st = Done (r, st') ->
  is_sat W (m_tracker st) = true /\
  exists st2,
    m_tracker st2 = m_tracker st /\ m_moves st2 = m_moves st /\
    stopwatch_reads st2 = stopwatch_reads st /\ trials st2 = trials st /\
    maximize_loop W fuel
      (constants (m_obj_tracker (setup_objective W objective st)))
      (eval (get_range W) (values (m_obj_tracker (setup_objective W objective st)))
         objective)
      (m_powers (get_bv_size (get_range W) objective) - 1)
      initial_move_vars st2 = Done st'.
Proof.
  unfold maximize. intros H.
  destruct (is_sat W (m_tracker st)); [|discriminate]. split; [reflexivity|].
  simpl negb in H. cbv iota in H.
  destruct (save_model _ _) as [st2|] eqn:Es; [|discriminate].
  apply save_model_Some in Es. exists st2.
  destruct (maximize_loop W fuel _ _ _ initial_move_vars st2) as [st3| | |];
    try discriminate.
  injection H as _ <-. subst st2. simpl. auto.
Qed.

(** X4. [maximize] never leaves the assertions violated: whenever it
    returns, the Hard Tracker's assignment, with every move and every
    randomization the loop has committed, is satisfied. *)
Theorem maximize_keeps_hard_tracker_satisfied (W : collaborators) (fuel : nat)
    (objective : expr) (st : engine) (r : expr) (st' : engine) :
  maximize W fuel objective st = Done (r, st') ->
  is_sat W (m_tracker st') = true.
Proof.
  intros H. apply maximize_unfold in H as (Hsat & st2 & Ht & _ & _ & _ & Hl).
  eapply maximize_loop_keeps_sat; [|exact Hl]. rewrite Ht. exact Hsat.
Qed.

Lemma maximize_keeps_hard_tracker_satisfied_witness :
  is_sat bounded_world
    (m_tracker (engine_after (maximize bounded_world 10 x_obj (x_engine 0))
                  (x_engine 0))) = true /\
  m_tracker (engine_after (maximize bounded_world 10 x_obj (x_engine 0)) (x_engine 0))
    <> m_tracker (x_engine 0).
Proof.
  split.
  - apply (maximize_keeps_hard_tracker_satisfied bounded_world 10 x_obj (x_engine 0)
             (ENum 0 3)).
    vm_compute. reflexivity.
  - vm_compute. discriminate.
Defined.

(** X5. [maximize] halts on the time budget: once every stopwatch reading
    from the [n]-th on is at or beyond the budget, the call ends within the
    passes that reach that reading, and it has made at most one move for
    every two readings left before the [n]-th. *)
Theorem maximize_halts_within_budget (W : collaborators) (objective : expr)
    (st : engine) (n : nat) :
  (forall m, (n <= m)%nat ->
             Qle_bool (TIMELIMIT (cfg W)) (stopwatch W m) = true) ->
  (forall fuel, (n <= S (stopwatch_reads st) + 2 * fuel)%nat ->
                maximize W (S fuel) objective st <> OutOfFuel) /\
  (forall fuel r st', maximize W fuel objective st = Done (r, st') ->
     (m_moves st <= m_moves st')%nat /\
     (2 * (m_moves st' - m_moves st) <= n - stopwatch_reads st)%nat).
Proof.
  intros Hclock. split.
  - intros fuel Hn. unfold maximize.
    destruct (negb _); [discriminate|].
    destruct (save_model _ _) as [st2|] eqn:Es; [|discriminate].
    apply save_model_Some in Es.
    pose proof (maximize_loop_halts W
      (constants (m_obj_tracker (setup_objective W objective st)))
      (eval (get_range W) (values (m_obj_tracker (setup_objective W objective st)))
         objective)
      (m_powers (get_bv_size (get_range W) objective) - 1)
      n Hclock fuel initial_move_vars st2) as Hh.
    destruct (maximize_loop W (S fuel) _ _ _ initial_move_vars st2);
      try discriminate.
    intros _. apply Hh; [|reflexivity]. subst st2. simpl. exact Hn.
  - intros fuel r st' H.
    apply maximize_unfold in H as (_ & st2 & _ & Hm & Hs & _ & Hl).
    apply (maximize_loop_moves W _ _ _ n Hclock) in Hl as [H1 H2].
    rewrite Hm in H1, H2. rewrite Hs in H2. lia.
Qed.

Lemma maximize_halts_within_budget_witness :
  maximize (free_world 3) 4 x_obj (x_engine 0) <> OutOfFuel /\
  (2 * (m_moves (engine_after (maximize (free_world 3) 4 x_obj (x_engine 0))
                   (x_engine 0)) - m_moves (x_engine 0))
     <= 6 - stopwatch_reads (x_engine 0))%nat.
Proof.
  assert (Hclock : forall m, (6 <= m)%nat ->
            Qle_bool (TIMELIMIT (cfg (free_world 3))) (stopwatch (free_world 3) m)
              = true).
  { intros m Hm. apply Qle_bool_iff. unfold Qle. simpl. lia. }
  pose proof (maximize_halts_within_budget (free_world 3) x_obj (x_engine 0) 6 Hclock)
    as [Hhalts Hmoves].
  split.
  - apply Hhalts. simpl. lia.
  - apply (Hmoves 4%nat (ENum 0 3)). vm_compute. reflexivity.
Defined.

(** ** What [maximize] returns *)

Lemma setup_objective_lookup (W : collaborators) (objective : expr) (st : engine)
    (fd : positive) :
  values (m_obj_tracker (setup_objective W objective st)) !! fd =
  if decide (fd ∈ expr_constants objective)
  then Some (default (initial_value W fd) (m_tracker st !! fd))
  else None.
Proof.
  unfold setup_objective, set_model, tracker_initialize, get_model. simpl.
  rewrite map_lookup_imap, app_nil_r.
  destruct (decide (fd ∈ expr_constants objective)) as [Hin|Hnin].
  - erewrite elem_of_list_to_map_1.
    + reflexivity.
    + rewrite <- list_fmap_compose. simpl. rewrite list_fmap_id.
      apply NoDup_remove_dups.
    + apply list_elem_of_fmap. exists fd. split; [reflexivity|].
      apply elem_of_remove_dups. exact Hin.
  - rewrite not_elem_of_list_to_map_1; [reflexivity|].
    rewrite <- list_fmap_compose. simpl. rewrite list_fmap_id.
    rewrite elem_of_remove_dups. exact Hnin.
Qed.

(** When the Hard Tracker follows every constant of the objective, the
    setup gives the Objective Tracker the Hard Tracker's values, and the
    first save stores the Hard Tracker's model. *)
Lemma setup_objective_tracked (W : collaborators) (objective : expr) (st : engine) :
  (forall fd, fd ∈ expr_constants objective -> is_Some (m_tracker st !! fd)) ->
  let st1 := setup_objective W objective st in
  eval (get_range W) (values (m_obj_tracker st1)) objective
    = eval (get_range W) (m_tracker st) objective /\
  m_tracker st1 ∪ values (m_obj_tracker st1) = m_tracker st.
Proof.
  intros Htr st1. split.
  - apply eval_ext. intros fd Hin. unfold get_value, st1.
    rewrite setup_objective_lookup. rewrite decide_True by exact Hin.
    destruct (Htr fd Hin) as [v ->]. reflexivity.
  - apply map_eq. intros fd. rewrite lookup_union. unfold st1.
    rewrite setup_objective_lookup.
    change (m_tracker (setup_objective W objective st)) with (m_tracker st).
    destruct (decide (fd ∈ expr_constants objective)) as [Hin|Hnin].
    + destruct (Htr fd Hin) as [v ->]. reflexivity.
    + destruct (m_tracker st !! fd); reflexivity.
Qed.

(** X6. [maximize] returns the value the objective has under the Hard
    Tracker's assignment at the call, and the best-known model it leaves is
    that assignment: the best-known pair is written by the save before the
    loop and by nothing after it. (The Hard Tracker must follow the
    objective's constants, as the code takes for granted.) *)
Theorem maximize_returns_entry_value (W : collaborators) (fuel : nat)
    (objective : expr) (st : engine) (r : expr) (st' : engine) :
  (forall fd, fd ∈ expr_constants objective -> is_Some (m_tracker st !! fd)) ->
  maximize W fuel objective st = Done (r, st') ->
  r = ENum (eval (get_range W) (m_tracker st) objective)
        (get_bv_size (get_range W) objective) /\
  m_best_model_score st' = eval (get_range W) (m_tracker st) objective /\
  m_best_model st' = m_tracker st.
Proof.
  intros Htr H. apply maximize_Done in H as (Hr & Hs & Hm).
  destruct (setup_objective_tracked W objective st Htr) as [He Hu].
  rewrite He in Hr, Hs. rewrite Hu in Hm. auto.
Qed.

Lemma maximize_returns_entry_value_witness :
  ENum 0 3 = ENum (eval (get_range bounded_world) (m_tracker (x_engine 0)) x_obj)
               (get_bv_size (get_range bounded_world) x_obj) /\
  m_best_model_score
    (engine_after (maximize bounded_world 10 x_obj (x_engine 0)) (x_engine 0))
    = eval (get_range bounded_world) (m_tracker (x_engine 0)) x_obj /\
  m_best_model
    (engine_after (maximize bounded_world 10 x_obj (x_engine 0)) (x_engine 0))
    = m_tracker (x_engine 0).
Proof.
  apply (maximize_returns_entry_value bounded_world 10 x_obj (x_engine 0)).
  - intros fd Hfd. apply list_elem_of_singleton in Hfd. subst fd.
    eexists. reflexivity.
  - vm_compute. reflexivity.
Defined.

Lemma loop_condition_score (W : collaborators) (score max_score : Z) (st : engine) :
  (loop_condition W score max_score st).1 = true -> score < max_score.
Proof.
  unfold loop_condition, get_current_seconds. simpl.
  destruct (check_restart W _); simpl; [|discriminate].
  destruct (Qle_bool _ _); simpl; [discriminate|].
  intros H. apply Z.ltb_lt. exact H.
Qed.

(** X7. When the objective already has its greatest value [2^w - 1] under
    the Hard Tracker's assignment, [maximize] returns it without entering
    the body of its loop: no trial is made, no move is counted, and the
    Hard Tracker is as it was. *)
Theorem maximize_at_greatest_value (W : collaborators) (fuel : nat)
    (objective : expr) (st : engine) :
  (forall fd, fd ∈ expr_constants objective -> is_Some (m_tracker st !! fd)) ->
  is_sat W (m_tracker st) = true ->
  eval (get_range W) (m_tracker st) objective
    = m_powers (get_bv_size (get_range W) objective) - 1 ->
  exists st',
    maximize W (S fuel) objective st
      = Done (ENum (m_powers (get_bv_size (get_range W) objective) - 1)
                (get_bv_size (get_range W) objective), st') /\
    trials st' = trials st /\ m_moves st' = m_moves st /\
    m_tracker st' = m_tracker st /\
    m_obj_tracker st' = m_obj_tracker (setup_objective W objective st).
Proof.
  intros Htr Hsat Hmax.
  destruct (setup_objective_tracked W objective st Htr) as [He Hu].
  unfold maximize. rewrite Hsat. simpl negb. cbv iota.
  rewrite He, Hmax.
  set (st1 := setup_objective W objective st) in *.
  set (mx := m_powers (get_bv_size (get_range W) objective) - 1).
  rewrite (proj1 (save_model_spec mx st1) (setup_objective_agree W objective st)).
  cbn [maximize_loop].
  set (st2 := with_best st1 _ mx).
  pose proof (loop_condition_score W mx mx st2) as Hsc.
  pose proof (loop_condition_facts W mx mx st2) as (Ht & Ho & _ & Hbs & Hmv & Htr' & _).
  destruct (loop_condition W mx mx st2) as [go st3]. simpl in *.
  destruct go; [specialize (Hsc eq_refl); lia|].
  exists st3. split.
  - rewrite Hbs. unfold mk_numeral. rewrite Z.mod_small; [reflexivity|].
    unfold mx. pose proof (m_powers_pos (get_bv_size (get_range W) objective)).
    pose proof (eval_range (get_range W) (m_tracker st) objective). lia.
  - auto.
Qed.

Lemma maximize_at_greatest_value_witness :
  exists st',
    maximize (free_world 3) 1 x_obj (x_engine 7)
      = Done (ENum (m_powers (get_bv_size (get_range (free_world 3)) x_obj) - 1)
                (get_bv_size (get_range (free_world 3)) x_obj), st') /\
    trials st' = trials (x_engine 7) /\ m_moves st' = m_moves (x_engine 7) /\
    m_tracker st' = m_tracker (x_engine 7) /\
    m_obj_tracker st' = m_obj_tracker (setup_objective (free_world 3) x_obj (x_engine 7)).
Proof.
  apply (maximize_at_greatest_value (free_world 3) 0 x_obj (x_engine 7)).
  - intros fd Hfd. apply list_elem_of_singleton in Hfd. subst fd.
    eexists. reflexivity.
  - reflexivity.
  - reflexivity.
Defined.

(** ** The driver [optimize] *)

Section DriverFacts.

Variable W : collaborators.
Variable B : base_engine.

(** One step of the search loop leaves alone what belongs to the
    optimization layer, and its verdict, when it counts as true, is the
    verdict of the last search on the tracker the search left. *)
Lemma satisfy_loop_facts :
  forall fuel restarts st v restarts' st',
  satisfy_loop W B fuel restarts st = Done (v, restarts', st') ->
  m_obj_tracker st' = m_obj_tracker st /\ m_best_model st' = m_best_model st /\
  m_best_model_score st' = m_best_model_score st /\ trials st' = trials st /\
  (v <> l_undef ->
   exists r s, search B r s = (v, {| bs_tracker := m_tracker st';
                                     bs_moves := m_moves st';
                                     bs_random_draws := random_draws st';
                                     bs_stopwatch_reads := pred (stopwatch_reads st') |})).
Proof.
  induction fuel as [|fuel IH]; intros restarts st v restarts' st' H; simpl in H;
    [discriminate|].
  destruct (cancel_requested W (m_moves st)); [discriminate|].
  destruct (search B restarts st) as [verdict b] eqn:Es.
  assert (Hlast : forall r', Done (verdict, r',
              with_stopwatch_reads
                (if bool_decide (verdict = l_undef)
                 then with_base (with_base st b) (randomize B (with_base st b))
                 else with_base st b)
                (S (stopwatch_reads
                      (if bool_decide (verdict = l_undef)
                       then with_base (with_base st b) (randomize B (with_base st b))
                       else with_base st b))))
            = Done (v, restarts', st') ->
    m_obj_tracker st' = m_obj_tracker st /\ m_best_model st' = m_best_model st /\
    m_best_model_score st' = m_best_model_score st /\ trials st' = trials st /\
    (v <> l_undef ->
     exists r s, search B r s = (v, {| bs_tracker := m_tracker st';
                                       bs_moves := m_moves st';
                                       bs_random_draws := random_draws st';
                                       bs_stopwatch_reads := pred (stopwatch_reads st') |}))).
  { intros r' [= <- _ <-]. case_bool_decide as Hv.
    - simpl. repeat split; try reflexivity. intros Hne. contradiction.
    - simpl. repeat split; try reflexivity. intros _.
      exists restarts, st. rewrite Es. destruct b; reflexivity. }
  unfold get_current_seconds in H. simpl in H.
  destruct (negb (Qle_bool _ _)) in H; [|eapply Hlast; exact H].
  destruct (negb (bool_decide (verdict = l_true))) in H; [|eapply Hlast; exact H].
  destruct (restarts <? m_max_restarts B) in H; [|eapply Hlast; exact H].
  apply IH in H as (Ho & Hm & Hs & Ht & Hv).
  case_bool_decide; simpl in *; auto.
Qed.

(** The restart counter and the ways out of the search loop. The counter
    is an unsigned number of 32 bits: the increment of the last, failing
    test [m_restarts++ < m_max_restarts] wraps when [m_max_restarts] is
    the greatest such number. *)
Lemma satisfy_loop_exit :
  0 <= m_max_restarts B < 2 ^ 32 ->
  forall fuel restarts st v restarts' st',
  0 <= restarts <= m_max_restarts B ->
  satisfy_loop W B fuel restarts st = Done (v, restarts', st') ->
  (restarts <= restarts' <= m_max_restarts B /\
   (v = l_true \/
    Qle_bool (TIMELIMIT (cfg W)) (stopwatch W (pred (stopwatch_reads st'))) = true)) \/
  restarts' = (m_max_restarts B + 1) mod 2 ^ 32.
Proof.
  intros Hmax. induction fuel as [|fuel IH]; intros restarts st v restarts' st' Hr H;
    simpl in H; [discriminate|].
  destruct (cancel_requested W (m_moves st)); [discriminate|].
  destruct (search B restarts st) as [verdict b].
  unfold get_current_seconds in H. simpl in H.
  destruct (Qle_bool _ _) eqn:Hq in H; simpl in H.
  { injection H as <- <- <-. left. split; [lia|]. right. simpl. exact Hq. }
  case_bool_decide as Hv; simpl in H.
  { injection H as <- <- <-. left. split; [lia|]. left. exact Hv. }
  destruct (Z.ltb_spec restarts (m_max_restarts B)) as [Hlt|Hge].
  - rewrite Z.mod_small in H by lia.
    apply IH in H; [|lia]. destruct H as [[H1 H2]|H]; [left|right; exact H].
    split; [lia | exact H2].
  - injection H as <- <- <-. right. replace restarts with (m_max_restarts B) by lia.
    reflexivity.
Qed.

Lemma satisfy_loop_halts :
  0 <= m_max_restarts B < 2 ^ 32 ->
  forall fuel restarts st,
  0 <= restarts <= m_max_restarts B ->
  (Z.to_nat (m_max_restarts B - restarts) < fuel)%nat ->
  satisfy_loop W B fuel restarts st <> OutOfFuel.
Proof.
  intros Hmax. induction fuel as [|fuel IH]; intros restarts st Hr Hf; [lia|].
  simpl. destruct (cancel_requested W (m_moves st)); [discriminate|].
  destruct (search B restarts st) as [verdict b].
  unfold get_current_seconds. simpl.
  destruct (negb (Qle_bool _ _)); [|discriminate].
  destruct (negb (bool_decide _)); [|discriminate].
  destruct (Z.ltb_spec restarts (m_max_restarts B)) as [Hlt|Hge]; [|discriminate].
  rewrite Z.mod_small by lia. apply IH; lia.
Qed.

(** [maximize] and [minimize] started on a satisfied Hard Tracker. *)
Lemma maximize_satisfied_start fuel objective st :
  is_sat W (m_tracker st) = true ->
  match maximize W fuel objective st with
  | Done (r, st') =>
      (exists v, r = ENum v (get_bv_size (get_range W) objective) /\
                 0 <= v < m_powers (get_bv_size (get_range W) objective)) /\
      is_sat W (m_tracker st') = true
  | AssertionViolation => False
  | Canceled | OutOfFuel => True
  end.
Proof.
  intros Hsat.
  destruct (maximize W fuel objective st) as [[r st']| | |] eqn:H; try exact I.
  - split.
    + pose proof (maximize_Done W fuel objective st r st' H) as (Hr & _).
      eexists. split; [exact Hr | apply eval_range].
    + apply maximize_unfold in H as (_ & st2 & Ht & _ & _ & _ & Hl).
      eapply maximize_loop_keeps_sat; [|exact Hl]. rewrite Ht. exact Hsat.
  - unfold maximize in H. rewrite Hsat in H. simpl negb in H. cbv iota in H.
    rewrite (proj1 (save_model_spec _ _) (setup_objective_agree W objective st)) in H.
    match type of H with
    | context [maximize_loop W fuel ?c ?s ?m ?l ?st2] =>
        pose proof (maximize_loop_keeps_best W c s m fuel l st2) as Hl;
        destruct (maximize_loop W fuel c s m l st2); try discriminate
    end.
    apply Hl. simpl. lia.
Qed.

End DriverFacts.

(** X8. When the Hard Tracker, initialized and seeded, is already
    satisfied, [optimize] does not search: it hands the objective to
    [maximize] or [minimize] on that tracker at once, returns the verdict
    [l_true] with their numeral and leaves the restart counter alone; and it
    does not end in a contract violation. *)
Theorem optimize_skips_search_when_satisfied (W : collaborators) (B : base_engine)
    (fuel : nat) (objective : expr) (initial_model : option (gmap positive Z))
    (_maximize : bool) (restarts : Z) (st : engine) :
  lbool_value B l_true <> 0 ->
  is_bv W objective = true ->
  is_sat W (m_tracker (setup_hard_tracker W B initial_model st)) = true ->
  optimize W B fuel objective initial_model _maximize restarts st =
    match (if _maximize
           then maximize W fuel objective (setup_hard_tracker W B initial_model st)
           else minimize W fuel objective (setup_hard_tracker W B initial_model st))
    with
    | Done (r, st') =>
        Done ({| res_is_sat := l_true; optimum := Some r |}, restarts, st')
    | AssertionViolation => AssertionViolation
    | Canceled => Canceled
    | OutOfFuel => OutOfFuel
    end /\
  optimize W B fuel objective initial_model _maximize restarts st
    <> AssertionViolation.
Proof.
  intros Htrue Hbv Hsat.
  assert (Heq : optimize W B fuel objective initial_model _maximize restarts st =
    match (if _maximize
           then maximize W fuel objective (setup_hard_tracker W B initial_model st)
           else minimize W fuel objective (setup_hard_tracker W B initial_model st))
    with
    | Done (r, st') =>
        Done ({| res_is_sat := l_true; optimum := Some r |}, restarts, st')
    | AssertionViolation => AssertionViolation
    | Canceled => Canceled
    | OutOfFuel => OutOfFuel
    end).
  { unfold optimize. rewrite Hbv, Hsat. simpl negb. cbv iota.
    assert (Ht : lbool_true B l_true = true).
    { unfold lbool_true. destruct (Z.eqb_spec (lbool_value B l_true) 0);
        [contradiction | reflexivity]. }
    rewrite Ht. simpl negb. cbv iota. rewrite Ht. reflexivity. }
  split; [exact Heq|]. rewrite Heq.
  destruct _maximize.
  - pose proof (maximize_satisfied_start W fuel objective _ Hsat) as Hm.
    destruct (maximize W fuel objective _) as [[r st']| | |];
      [discriminate | contradiction | discriminate | discriminate].
  - unfold minimize.
    pose proof (maximize_satisfied_start W fuel (mk_bv_neg objective) _ Hsat) as Hm.
    destruct (maximize W fuel (mk_bv_neg objective) _) as [[r st']| | |];
      [discriminate | contradiction | discriminate | discriminate].
Qed.

Lemma optimize_skips_search_when_satisfied_witness :
  optimum_of
    (match optimize (free_world 3) example_base 10 x_obj None true 0 (x_engine 5) with
     | Done (res, _, st') =>
         match optimum res with Some r => Done (r, st') | None => OutOfFuel end
     | _ => OutOfFuel
     end) = Some (ENum 0 3) /\
  optimize (free_world 3) example_base 10 x_obj None true 0 (x_engine 5)
    <> AssertionViolation.
Proof.
  pose proof (optimize_skips_search_when_satisfied (free_world 3) example_base 10
                x_obj None true 0 (x_engine 5)) as H.
  destruct H as [Heq Hnv]; [discriminate | reflexivity | reflexivity |].
  split; [|exact Hnv]. rewrite Heq. vm_compute. reflexivity.
Defined.

(** X9. The search loop of [optimize] is bounded by the restart budget.
    Started with the restart counter at most [m_max_restarts] (both unsigned
    numbers of 32 bits), it makes at most [m_max_restarts - m_restarts + 1]
    passes. It is left either with the verdict [l_true] or on a stopwatch
    reading at or beyond the time budget, the counter then lying between its
    start and [m_max_restarts]; or because the test
    [m_restarts++ < m_max_restarts] failed, the counter then being
    [m_max_restarts + 1] modulo [2^32]: that is [m_max_restarts + 1], except
    that it has wrapped to 0 when [m_max_restarts] is the greatest unsigned
    number. *)
Theorem optimize_search_loop_bounded (W : collaborators) (B : base_engine)
    (restarts : Z) (st : engine) :
  0 <= m_max_restarts B < 2 ^ 32 ->
  0 <= restarts <= m_max_restarts B ->
  (forall fuel, (Z.to_nat (m_max_restarts B - restarts) < fuel)%nat ->
                satisfy_loop W B fuel restarts st <> OutOfFuel) /\
  (forall fuel v restarts' st',
     satisfy_loop W B fuel restarts st = Done (v, restarts', st') ->
     ((restarts <= restarts' <= m_max_restarts B /\
       (v = l_true \/
        Qle_bool (TIMELIMIT (cfg W)) (stopwatch W (pred (stopwatch_reads st')))
          = true)) \/
      restarts' = (m_max_restarts B + 1) mod 2 ^ 32) /\
     (m_max_restarts B < 2 ^ 32 - 1 ->
      restarts <= restarts' <= m_max_restarts B + 1) /\
     (m_max_restarts B = 2 ^ 32 - 1 ->
      restarts <= restarts' \/ restarts' = 0)).
Proof.
  intros Hmax Hr. split.
  - intros fuel Hf. apply satisfy_loop_halts; assumption.
  - intros fuel v restarts' st' H.
    pose proof (satisfy_loop_exit W B Hmax fuel restarts st v restarts' st' Hr H)
      as Hexit.
    split; [exact Hexit|]. split.
    + intros Hlt. destruct Hexit as [[H1 _]| ->]; [lia|].
      rewrite Z.mod_small by lia. lia.
    + intros He. destruct Hexit as [[H1 _]| ->]; [left; lia|].
      right. rewrite He. reflexivity.
Qed.

Lemma optimize_search_loop_bounded_witness :
  satisfy_loop (free_world 3) stuck_base 3 0 (x_engine 0) <> OutOfFuel /\
  match satisfy_loop (free_world 3) stuck_base 3 0 (x_engine 0) with
  | Done (v, restarts', _) => v = l_undef /\ restarts' = 3
  | _ => False
  end /\
  match satisfy_loop (free_world 3) wrapping_base 3 4294967294 (x_engine 0) with
  | Done (v, restarts', _) => v = l_undef /\ restarts' = 0
  | _ => False
  end.
Proof.
  pose proof (optimize_search_loop_bounded (free_world 3) stuck_base 0 (x_engine 0))
    as [Hhalts Hexit]; [simpl; lia | simpl; lia |].
  pose proof (optimize_search_loop_bounded (free_world 3) wrapping_base 4294967294
                (x_engine 0)) as [_ Hwrap]; [simpl; lia | simpl; lia |].
  split; [|split].
  - apply Hhalts. simpl. lia.
  - destruct (satisfy_loop (free_world 3) stuck_base 3 0 (x_engine 0))
      as [[[v r'] st']| | |] eqn:E; try (vm_compute in E; discriminate).
    destruct (Hexit 3%nat v r' st' E) as [_ Hwhy].
    vm_compute in E. injection E as <- <- <-. split; reflexivity.
  - destruct (satisfy_loop (free_world 3) wrapping_base 3 4294967294 (x_engine 0))
      as [[[v r'] st']| | |] eqn:E; try (vm_compute in E; discriminate).
    destruct (Hwrap 3%nat v r' st' E) as [_ Hwhy].
    vm_compute in E. injection E as <- <- <-. split; reflexivity.
Defined.

(** X10. What [optimize] returns. Without an optimum, the last verdict
    counts as false and neither [maximize] nor [minimize] has run: the
    Objective Tracker, the best-known result and the trial history are as
    at the call. With an optimum, the last verdict counts as true, the
    optimum is a numeral of the objective's width with a value in
    [0, 2^w), and the Hard Tracker is satisfied. *)
Theorem optimize_result_shape (W : collaborators) (B : base_engine) (fuel : nat)
    (objective : expr) (initial_model : option (gmap positive Z))
    (_maximize : bool) (restarts restarts' : Z) (st st' : engine)
    (res : optimization_result) :
  optimize W B fuel objective initial_model _maximize restarts st
    = Done (res, restarts', st') ->
  match optimum res with
  | None =>
      lbool_true B (res_is_sat res) = false /\
      m_obj_tracker st' = m_obj_tracker st /\
      m_best_model st' = m_best_model st /\
      m_best_model_score st' = m_best_model_score st /\
      trials st' = trials st
  | Some r =>
      lbool_true B (res_is_sat res) = true /\
      (exists v, r = ENum v (get_bv_size (get_range W) objective) /\
                 0 <= v < m_powers (get_bv_size (get_range W) objective)) /\
      is_sat W (m_tracker st') = true
  end.
Proof.
  unfold optimize. intros H.
  destruct (negb (is_bv W objective)); [discriminate|].
  set (st1 := setup_hard_tracker W B initial_model st) in *.
  assert (Hframe : m_obj_tracker st1 = m_obj_tracker st /\
                   m_best_model st1 = m_best_model st /\
                   m_best_model_score st1 = m_best_model_score st /\
                   trials st1 = trials st).
  { unfold st1, setup_hard_tracker. destruct initial_model; simpl; auto. }
  set (verdict0 := if is_sat W (m_tracker st1) then l_true else l_undef) in *.
  assert (Hloop : forall v r s,
    (if negb (lbool_true B verdict0) then satisfy_loop W B fuel restarts st1
     else Done (verdict0, restarts, st1)) = Done (v, r, s) ->
    m_obj_tracker s = m_obj_tracker st /\ m_best_model s = m_best_model st /\
    m_best_model_score s = m_best_model_score st /\ trials s = trials st).
  { intros v r s Hd. destruct (negb (lbool_true B verdict0)).
    - apply satisfy_loop_facts in Hd as (Ho & Hm & Hs & Ht & _).
      destruct Hframe as (Ho' & Hm' & Hs' & Ht'). repeat split; congruence.
    - injection Hd as _ _ <-. exact Hframe. }
  destruct (if negb (lbool_true B verdict0) then satisfy_loop W B fuel restarts st1
            else Done (verdict0, restarts, st1)) as [[[v r] s]| | |];
    try discriminate.
  specialize (Hloop v r s eq_refl).
  destruct (lbool_true B v) eqn:Hv.
  - assert (Hmax : forall e r0 s0, maximize W fuel e s = Done (r0, s0) ->
        (exists v0, r0 = ENum v0 (get_bv_size (get_range W) e) /\
                    0 <= v0 < m_powers (get_bv_size (get_range W) e)) /\
        is_sat W (m_tracker s0) = true).
    { intros e r0 s0 Hd. split.
      - pose proof (maximize_Done W fuel e s r0 s0 Hd) as (Hr & _).
        eexists. split; [exact Hr | apply eval_range].
      - apply maximize_unfold in Hd as (Hsat & st2 & Ht & _ & _ & _ & Hl).
        eapply maximize_loop_keeps_sat; [|exact Hl]. rewrite Ht. exact Hsat. }
    destruct _maximize.
    + destruct (maximize W fuel objective s) as [[r0 s0]| | |] eqn:Hd;
        try discriminate.
      injection H as <- _ <-. simpl. split; [exact Hv|]. apply Hmax. exact Hd.
    + unfold minimize in H.
      destruct (maximize W fuel (mk_bv_neg objective) s) as [[r0 s0]| | |] eqn:Hd;
        try discriminate.
      injection H as <- _ <-. simpl. split; [exact Hv|].
      apply (Hmax (mk_bv_neg objective)). exact Hd.
  - injection H as <- _ <-. simpl. split; [exact Hv | exact Hloop].
Qed.

Lemma optimize_result_shape_witness :
  match optimize bounded_world stuck_base 10 x_obj None true 0 (x_engine 0) with
  | Done (res, _, st') =>
      optimum res = None /\ res_is_sat res = l_undef /\
      m_best_model st' = m_best_model (x_engine 0)
  | _ => False
  end.
Proof.
  destruct (optimize bounded_world stuck_base 10 x_obj None true 0 (x_engine 0))
    as [[[res r'] st']| | |] eqn:E; try (vm_compute in E; discriminate).
  pose proof (optimize_result_shape bounded_world stuck_base 10 x_obj None true 0 r'
                (x_engine 0) st' res E) as H.
  assert (Hres : optimum res = None /\ res_is_sat res = l_undef).
  { vm_compute in E. injection E as <- _ _. split; reflexivity. }
  destruct Hres as [Hn Hu]. rewrite Hn in H. destruct H as (_ & _ & Hm & _).
  auto.
Defined.

(** The search loop itself holds no assertion. *)
Lemma satisfy_loop_no_violation (W : collaborators) (B : base_engine) :
  forall fuel restarts st, satisfy_loop W B fuel restarts st <> AssertionViolation.
Proof.
  induction fuel as [|f IH]; intros restarts st; simpl; [discriminate|].
  destruct (cancel_requested W (m_moves st)); [discriminate|].
  destruct (search B restarts st) as [verdict b].
  unfold get_current_seconds. simpl.
  destruct (negb (Qle_bool _ _)); [|discriminate].
  destruct (negb (bool_decide _)); [|discriminate].
  destruct (restarts <? m_max_restarts B); [|discriminate].
  apply IH.
Qed.

(** X11. [optimize] keeps the contracts of what it calls: if the objective
    is of bit-vector sort, [l_undef] is the enumerator that counts as
    false, and the base search answers a verdict that counts as true only
    on a satisfied tracker, then [optimize] never ends in a contract
    violation: [maximize] and [minimize] are only started on a satisfied
    Hard Tracker, and every save they make passes its assertion. *)
Theorem optimize_respects_contracts (W : collaborators) (B : base_engine)
    (fuel : nat) (objective : expr) (initial_model : option (gmap positive Z))
    (_maximize : bool) (restarts : Z) (st : engine) :
  is_bv W objective = true ->
  lbool_value B l_undef = 0 ->
  (forall r s, lbool_true B (search B r s).1 = true ->
               is_sat W (bs_tracker (search B r s).2) = true) ->
  optimize W B fuel objective initial_model _maximize restarts st
    <> AssertionViolation.
Proof.
  intros Hbv Hundef Hsearch. unfold optimize. rewrite Hbv. simpl negb. cbv iota.
  set (st1 := setup_hard_tracker W B initial_model st).
  assert (Hfalse : lbool_true B l_undef = false).
  { unfold lbool_true. rewrite Hundef. reflexivity. }
  assert (Hloop : forall v r s,
    (if negb (lbool_true B (if is_sat W (m_tracker st1) then l_true else l_undef))
     then satisfy_loop W B fuel restarts st1
     else Done (if is_sat W (m_tracker st1) then l_true else l_undef, restarts, st1))
      = Done (v, r, s) ->
    lbool_true B v = true -> is_sat W (m_tracker s) = true).
  { intros v r s Hd Hv.
    destruct (negb (lbool_true B _)) eqn:Hn.
    - apply satisfy_loop_facts in Hd as (_ & _ & _ & _ & Hlast).
      destruct Hlast as (r0 & s0 & Hs0); [intros ->; congruence|].
      specialize (Hsearch r0 s0). rewrite Hs0 in Hsearch. simpl in Hsearch.
      apply Hsearch. exact Hv.
    - injection Hd as <- _ <-.
      destruct (is_sat W (m_tracker st1)); [reflexivity | congruence]. }
  destruct (if negb (lbool_true B (if is_sat W (m_tracker st1) then l_true else l_undef))
            then satisfy_loop W B fuel restarts st1
            else Done (if is_sat W (m_tracker st1) then l_true else l_undef,
                       restarts, st1)) as [[[v r] s]| | |] eqn:E.
  - specialize (Hloop v r s eq_refl).
    destruct (lbool_true B v); [|discriminate].
    specialize (Hloop eq_refl).
    destruct _maximize.
    + pose proof (maximize_satisfied_start W fuel objective s Hloop) as Hm.
      destruct (maximize W fuel objective s) as [[r0 s0]| | |];
        [discriminate | contradiction | discriminate | discriminate].
    + unfold minimize.
      pose proof (maximize_satisfied_start W fuel (mk_bv_neg objective) s Hloop) as Hm.
      destruct (maximize W fuel (mk_bv_neg objective) s) as [[r0 s0]| | |];
        [discriminate | contradiction | discriminate | discriminate].
  - exfalso. destruct (negb (lbool_true B _)); [|discriminate].
    exact (satisfy_loop_no_violation W B fuel restarts st1 E).
  - discriminate.
  - discriminate.
Qed.

Lemma optimize_respects_contracts_witness :
  optimize bounded_world example_base 10 x_obj None true 0 (x_engine 0)
    <> AssertionViolation.
Proof.
  apply optimize_respects_contracts.
  - reflexivity.
  - reflexivity.
  - intros r s _. simpl. unfold is_sat, bounded_world.
    rewrite get_value_set_value. rewrite decide_True by reflexivity.
    destruct (m_tracker s !! 1%positive); reflexivity.
Defined.

(** ** The order of the trials *)

Section CatalogFacts.

Variable W : collaborators.





End CatalogFacts.


